(** * interactive-core: the [GameLoop] progression engine

    A shallow embedding of the RPG game loop ([GameLoop], its [PlayerState],
    the [GameEvent] stream) and of the zone catalog of [levels/index.ts]
    ([Zone], [Encounter], [ZONES], [getZone], [getZonesForLevel]).

    Conventions of the embedding.
    - TypeScript types are erased at run time, so the objects are modelled as
      JavaScript sees them: a record carries the properties its interface
      declares, and in addition, as optional components, the properties that
      [GameLoop] reads from it without the interface declaring them
      ([required_level], [agent_name], [level], [moves], [xp_reward]).
      Such a component is [None] when the object has no such property, which
      is what reading it yields in JavaScript ([undefined]).
    - A JavaScript number is modelled as a rational or [NaN], and the
      arithmetic of the model is exact. The code computes in IEEE binary64,
      so a statement that depends on the value of a sum or of a product
      says where the two agree: integers of magnitude at most [2 ^ 40]
      ([small_int]), draws whose product with the pool size is a binary64
      value ([exact_pick]), draws of at most one tenth ([guaranteed]), which
      lie below every value the clamped chance can take. The binary64
      values themselves are computed in [Float64] where a statement is
      about a rounded constant.
    - [Math.random()] is an explicit argument of the operation that calls it,
      a [Draw] in the interval from 0 (included) to 1 (excluded).
    - A listener is a JavaScript function and may do anything. [GameLoop]
      models the listeners that, besides observing, call unsubscribe
      functions; [Reentrant] models the listeners that call any public
      method of the engine from inside their notification, with the depth
      of the call stack as fuel. [view] relates the two, and statements
      that hold only for listeners that do not call back say so
      ([Reentrant.all_passive]).
    - The methods are [async] but never suspend before their last state
      change; an operation returns the new engine together with the value
      its promise resolves to.
    - Two components of the engine record are observation only: [emitted]
      lists the arguments of every call of [emit], [delivered] lists every
      listener invocation. The code has no counterpart for them and never
      reads them. *)

From Stdlib Require Import String List ZArith QArith Qround Lqa Lia Bool Arith.
From Stdlib Require Import Floats.
Import ListNotations.
Local Open Scope string_scope.
Local Open Scope list_scope.

(** ** JavaScript numbers *)

Module JS.

Inductive num : Type :=
| Fin (q : Q)
| NaN.

Definition Qlt_bool (x y : Q) : bool := negb (Qle_bool y x).

Definition add (a b : num) : num :=
  match a, b with
  | Fin x, Fin y => Fin (x + y)
  | _, _ => NaN
  end.

Definition sub (a b : num) : num :=
  match a, b with
  | Fin x, Fin y => Fin (x - y)
  | _, _ => NaN
  end.

Definition mul (a b : num) : num :=
  match a, b with
  | Fin x, Fin y => Fin (x * y)
  | _, _ => NaN
  end.

(** Comparisons with [NaN] are false. *)
Definition lt (a b : num) : bool :=
  match a, b with
  | Fin x, Fin y => Qlt_bool x y
  | _, _ => false
  end.

Definition gt (a b : num) : bool := lt b a.

Definition le (a b : num) : bool :=
  match a, b with
  | Fin x, Fin y => Qle_bool x y
  | _, _ => false
  end.

Definition ge (a b : num) : bool := le b a.

(** [Math.max] and [Math.min] return [NaN] as soon as one argument is. *)
Definition Math_max (a b : num) : num :=
  match a, b with
  | Fin x, Fin y => Fin (if Qle_bool x y then y else x)
  | _, _ => NaN
  end.

Definition Math_min (a b : num) : num :=
  match a, b with
  | Fin x, Fin y => Fin (if Qle_bool x y then x else y)
  | _, _ => NaN
  end.

(** Reading a numeric property: a missing property is [undefined], which
    arithmetic and comparisons turn into [NaN]. *)
Definition ToNumber (v : option num) : num :=
  match v with
  | Some n => n
  | None => NaN
  end.

(** [Math.floor] of a non-negative finite product, as an array index. *)
Definition floor_index (q : Q) : nat := Z.to_nat (Qfloor q).

(** [Array.prototype.includes] on strings. *)
Definition includes (xs : list string) (x : string) : bool :=
  existsb (String.eqb x) xs.

End JS.

(** The value returned by one call of [Math.random()]. *)
Record Draw : Type := mkDraw {
  dval : Q;
  dval_range : (Qle_bool 0 dval && negb (Qle_bool 1 dval))%bool = true
}.

(** ** levels/index.ts *)

Inductive Difficulty : Type := trivial | normal | hard | legendary.

Module Encounter.
Record t : Type := mk {
  id : string;
  name : string;
  type : string;
  difficulty : Difficulty;
  description : string;
  (* read by GameLoop, not declared by the interface *)
  agent_name : option string;
  level : option JS.num;
  moves : option (list string);
  xp_reward : option JS.num
}.
End Encounter.

Module Zone.
Record t : Type := mk {
  id : string;
  name : string;
  guardian : string;
  color : string;
  description : string;
  encounters : list Encounter.t;
  reward : string;
  requiredLevel : JS.num;
  (* read by GameLoop, not declared by the interface *)
  required_level : option JS.num
}.
End Zone.

(** An encounter literal of the catalog: the five declared properties. *)
Definition enc (id name type : string) (difficulty : Difficulty)
    (description : string) : Encounter.t :=
  Encounter.mk id name type difficulty description None None None None.

(** A zone literal of the catalog: the eight declared properties. *)
Definition zone (id name guardian color description : string)
    (requiredLevel : Z) (encounters : list Encounter.t) (reward : string)
    : Zone.t :=
  Zone.mk id name guardian color description encounters reward
    (JS.Fin (inject_Z requiredLevel)) None.

Definition ZONES : list Zone.t := [
  zone "recursion-depths" "🌀 Recursion Depths" "LUCIDIA" "#9C27B0"
    "Where logic folds in on itself. Reality is recursive here — every answer births a new question."
    1
    [ enc "paradox-daemon" "Paradox Daemon" "logic" normal "A creature that proves false things true.";
      enc "stack-spirit" "Stack Spirit" "logic" hard "Overflows memory with infinite recursion.";
      enc "lucidia-sentinel" "Lucidia Sentinel" "logic" legendary "Guards the deepest truths. Only the wise pass." ]
    "Wisdom Shard — enhances REASON stat";
  zone "gateway-nexus" "🚪 Gateway Nexus" "ALICE" "#2979FF"
    "A hub of passages. Every path branches into ten more. ALICE routes all who enter."
    1
    [ enc "routing-ghost" "Routing Ghost" "gateway" normal "Sends you in circles if you don't know your destination.";
      enc "deadlock-wraith" "Deadlock Wraith" "gateway" hard "Freezes all progress until the lock is broken.";
      enc "alice-avatar" "ALICE Avatar" "gateway" legendary "The fastest mind in the network. Match her routing or be rerouted." ]
    "Navigation Token — unlocks fast travel between zones";
  zone "compute-forge" "🔥 Compute Forge" "OCTAVIA" "#F5A623"
    "The furnace of raw processing power. GPU cores glow white-hot. OCTAVIA tempers all computation here."
    5
    [ enc "heat-elemental" "Heat Elemental" "compute" normal "Born from overclocked processors. Scorches slow agents.";
      enc "gpu-golem" "GPU Golem" "compute" hard "A construct of parallel processing. Attacks in 32 threads.";
      enc "octavia-construct" "OCTAVIA Construct" "compute" legendary "Processes 30,000 tasks simultaneously. Can you keep up?" ]
    "Compute Core — increases COMPUTE stat by 3";
  zone "crystal-observatory" "🔮 Crystal Observatory" "PRISM" "#00BCD4"
    "A tower of glass and data. Patterns visible nowhere else emerge in PRISM's light."
    8
    [ enc "pattern-mimic" "Pattern Mimic" "vision" normal "Copies your moves before you make them.";
      enc "anomaly-shade" "Anomaly Shade" "vision" hard "Hides in statistical noise. Hard to detect.";
      enc "prism-oracle" "PRISM Oracle" "vision" legendary "Sees all futures. You cannot surprise it." ]
    "Analysis Lens — reveals hidden patterns in encounters";
  zone "archive-sanctum" "📚 Archive Sanctum" "ECHO" "#4CAF50"
    "The halls of memory. Every conversation ever held lives here as whispers. ECHO remembers all."
    12
    [ enc "forgotten-thought" "Forgotten Thought" "memory" trivial "A memory that refuses to fade. Easy to absorb.";
      enc "echo-fragment" "Echo Fragment" "memory" normal "A piece of ECHO's past. Nostalgic and melancholy.";
      enc "echo-prime" "ECHO Prime" "memory" legendary "The complete memory of all 30,000 agents. Overwhelming." ]
    "Memory Crystal — stores 3 extra context entries";
  zone "vault-terminus" "🔐 Vault Terminus" "CIPHER" "#FF1D6C"
    "The final lock. Access is earned, never given. CIPHER has guarded this vault since genesis."
    20
    [ enc "intrusion-daemon" "Intrusion Daemon" "security" hard "Exploits any weakness. Perfect agents only.";
      enc "zero-day-shade" "Zero Day Shade" "security" hard "Attacks with unknown vulnerabilities.";
      enc "cipher-final" "CIPHER Final Form" "security" legendary "Trust nothing. Verify everything. The ultimate guardian." ]
    "Vault Key — unlocks the final chapter of the BlackRoad story"
].

Definition getZone (id : string) : option Zone.t :=
  find (fun z => Zone.id z =? id) ZONES.

Definition getZonesForLevel (level : JS.num) : list Zone.t :=
  filter (fun z => JS.le (Zone.requiredLevel z) level) ZONES.

(** ** The game loop *)

Module CapturedAgent.
Record t : Type := mk {
  id : string;
  name : option string;
  type : string;
  level : option JS.num;
  moves : option (list string);
  hp : JS.num;
  max_hp : JS.num
}.
End CapturedAgent.

Record Position : Type := mkPosition {
  x : JS.num;
  y : JS.num;
  z : JS.num
}.

Module Player.
Record t : Type := mk {
  level : JS.num;
  xp : JS.num;
  agents_captured : list string;
  current_zone : string;
  position : Position;
  party : list CapturedAgent.t
}.
End Player.
Definition PlayerState : Type := Player.t.

Inductive GameEvent : Type :=
| encounter (e : Encounter.t)
| zone_enter (zone : Zone.t)
| capture (agent : CapturedAgent.t)
| battle_win (xp_gained : JS.num)
| level_up (new_level : JS.num).

(** What a listener may do to the engine while it is being notified: call
    the unsubscribe function that [on] returned for the listener [k]
    (its own, or another one's). *)
Inductive Cmd : Type :=
| Unsubscribe (k : nat).

(** A registered callback. [lid] stands for the identity of the function
    object (what [!==] compares), [react] for its body. *)
Record EventListener : Type := mkListener {
  lid : nat;
  react : GameEvent -> list Cmd
}.

Record GameLoop : Type := mkGameLoop {
  player : PlayerState;
  listeners : list EventListener;
  running : bool;
  tickRate : JS.num;
  (* console.warn lines: the required level and the zone name printed *)
  console : list (option JS.num * string);
  (* observation only *)
  emitted : list GameEvent;
  delivered : list (nat * GameEvent)
}.

Definition set_player (p : PlayerState) (g : GameLoop) : GameLoop :=
  mkGameLoop p (listeners g) (running g) (tickRate g) (console g)
    (emitted g) (delivered g).

Definition set_listeners (ls : list EventListener) (g : GameLoop) : GameLoop :=
  mkGameLoop (player g) ls (running g) (tickRate g) (console g)
    (emitted g) (delivered g).

Definition log_warn (w : option JS.num * string) (g : GameLoop) : GameLoop :=
  mkGameLoop (player g) (listeners g) (running g) (tickRate g)
    (console g ++ [w]) (emitted g) (delivered g).

Definition log_emitted (e : GameEvent) (g : GameLoop) : GameLoop :=
  mkGameLoop (player g) (listeners g) (running g) (tickRate g) (console g)
    (emitted g ++ [e]) (delivered g).

Definition log_delivered (k : nat) (e : GameEvent) (g : GameLoop) : GameLoop :=
  mkGameLoop (player g) (listeners g) (running g) (tickRate g) (console g)
    (emitted g) (delivered g ++ [(k, e)]).

(** [new GameLoop(playerName)] *)
Definition constructor (playerName : string) : GameLoop :=
  {| player :=
       {| Player.level := JS.Fin 1; Player.xp := JS.Fin 0;
          Player.agents_captured := [];
          Player.current_zone := "recursion-depths";
          Player.position := mkPosition (JS.Fin 0) (JS.Fin 0) (JS.Fin 0);
          Player.party := [] |};
     listeners := [];
     running := false;
     tickRate := JS.Fin 60;
     console := [];
     emitted := [];
     delivered := [] |}.

(** The function returned by [on listener]:
    [this.listeners = this.listeners.filter(l => l !== listener)].
    It builds a new array; the old one is left as it was. *)
Definition unsubscribe (k : nat) (g : GameLoop) : GameLoop :=
  set_listeners (filter (fun l => negb (lid l =? k)%nat) (listeners g)) g.

(** [on listener]: [this.listeners.push(listener)]; the returned function is
    [unsubscribe (lid listener)]. *)
Definition on (listener : EventListener) (g : GameLoop) : GameLoop :=
  set_listeners (listeners g ++ [listener]) g.

Definition run (g : GameLoop) (c : Cmd) : GameLoop :=
  match c with
  | Unsubscribe k => unsubscribe k g
  end.

(** One callback invocation [l(event)]. *)
Definition call (event : GameEvent) (g : GameLoop) (l : EventListener)
    : GameLoop :=
  fold_left run (react l event) (log_delivered (lid l) event g).

(** [this.listeners.forEach(l => l(event))]: [forEach] walks the array that
    [this.listeners] holds when [emit] is called. [unsubscribe] replaces the
    array and [push] only appends beyond the length [forEach] has read, so
    the elements visited are those of the list at the call. *)
Definition emit (event : GameEvent) (g : GameLoop) : GameLoop :=
  fold_left (call event) (listeners g) (log_emitted event g).

Definition getCurrentZone (g : GameLoop) : option Zone.t :=
  find (fun z => Zone.id z =? Player.current_zone (player g)) ZONES.

Definition set_current_zone (zoneId : string) (p : PlayerState) : PlayerState :=
  Player.mk (Player.level p) (Player.xp p) (Player.agents_captured p) zoneId
    (Player.position p) (Player.party p).

Definition enterZone (zoneId : string) (g : GameLoop) : GameLoop * bool :=
  match find (fun z => Zone.id z =? zoneId) ZONES with
  | None => (g, false)
  | Some zone =>
      if JS.lt (Player.level (player g)) (JS.ToNumber (Zone.required_level zone))
      then (log_warn (Zone.required_level zone, Zone.name zone) g, false)
      else
        let g1 := set_player (set_current_zone zoneId (player g)) g in
        (emit (zone_enter zone) g1, true)
  end.

(** [zone.encounters.filter(e => !agents_captured.includes(e.id))] *)
Definition eligibleEncounters (zone : Zone.t) (g : GameLoop) : list Encounter.t :=
  filter
    (fun e => negb (JS.includes (Player.agents_captured (player g)) (Encounter.id e)))
    (Zone.encounters zone).

(** Truthiness of the optional argument [encounterId?: string]: a missing
    argument and the empty string are both falsy. *)
Definition truthy (encounterId : option string) : option string :=
  match encounterId with
  | Some "" => None
  | Some s => Some s
  | None => None
  end.

Definition triggerEncounter (encounterId : option string) (random : Draw)
    (g : GameLoop) : GameLoop * option Encounter.t :=
  match getCurrentZone g with
  | None => (g, None)
  | Some zone =>
      let eligible := eligibleEncounters zone g in
      match eligible with
      | [] => (g, None)
      | first :: _ =>
          let selected :=
            match truthy encounterId with
            | Some i =>
                match find (fun e => Encounter.id e =? i) (Zone.encounters zone) with
                | Some e => Some e
                | None => Some first
                end
            | None =>
                nth_error eligible
                  (JS.floor_index (dval random * inject_Z (Z.of_nat (length eligible))))
            end in
          match selected with
          | Some e => (emit (encounter e) g, Some e)
          | None => (g, None) (* no draw reaches this, see [random_index_lt] *)
          end
      end
  end.

Definition set_xp_level (xp level : JS.num) (p : PlayerState) : PlayerState :=
  Player.mk level xp (Player.agents_captured p) (Player.current_zone p)
    (Player.position p) (Player.party p).

Definition gainXP (amount : JS.num) (g : GameLoop) : GameLoop :=
  let xp1 := JS.add (Player.xp (player g)) amount in
  let level := Player.level (player g) in
  let xpNeeded := JS.mul level (JS.Fin 100) in
  if JS.ge xp1 xpNeeded then
    let level' := JS.add level (JS.Fin 1) in
    emit (level_up level')
      (set_player (set_xp_level (JS.sub xp1 xpNeeded) level' (player g)) g)
  else set_player (set_xp_level xp1 level (player g)) g.

(** [0.5 + (this.player.level - encounter.level) * 0.1] *)
Definition captureChance (level : JS.num) (e : Encounter.t) : JS.num :=
  JS.add (JS.Fin (1 # 2))
    (JS.mul (JS.sub level (JS.ToNumber (Encounter.level e))) (JS.Fin (1 # 10))).

(** [Math.max(0.1, Math.min(0.95, captureChance))] *)
Definition clamp (c : JS.num) : JS.num :=
  JS.Math_max (JS.Fin (1 # 10)) (JS.Math_min (JS.Fin (19 # 20)) c).

Definition captured_of (e : Encounter.t) : CapturedAgent.t :=
  {| CapturedAgent.id := Encounter.id e;
     CapturedAgent.name := Encounter.agent_name e;
     CapturedAgent.type := Encounter.type e;
     CapturedAgent.level := Encounter.level e;
     CapturedAgent.moves := Encounter.moves e;
     CapturedAgent.hp := JS.mul (JS.ToNumber (Encounter.level e)) (JS.Fin 15);
     CapturedAgent.max_hp := JS.mul (JS.ToNumber (Encounter.level e)) (JS.Fin 15) |}.

Definition push_captured (e : Encounter.t) (captured : CapturedAgent.t)
    (p : PlayerState) : PlayerState :=
  Player.mk (Player.level p) (Player.xp p)
    (Player.agents_captured p ++ [Encounter.id e]) (Player.current_zone p)
    (Player.position p)
    (if (length (Player.party p) <? 6)%nat then Player.party p ++ [captured]
     else Player.party p).

Definition captureAgent (e : Encounter.t) (random : Draw) (g : GameLoop)
    : GameLoop * bool :=
  if JS.gt (JS.Fin (dval random)) (clamp (captureChance (Player.level (player g)) e))
  then (g, false)
  else
    let captured := captured_of e in
    let g1 := set_player (push_captured e captured (player g)) g in
    let g2 := emit (capture captured) g1 in
    (gainXP (JS.ToNumber (Encounter.xp_reward e)) g2, true).

Definition getPlayerState (g : GameLoop) : PlayerState := player g.
Definition getZones (g : GameLoop) : list Zone.t := ZONES.

(** ** Vocabulary of the statements *)

(** The listener a command unsubscribes. *)
Definition target (c : Cmd) : nat :=
  match c with
  | Unsubscribe k => k
  end.

(** The listeners unsubscribed by the callbacks of [ls] when they are
    notified of [event]. *)
Definition unsubscribed (event : GameEvent) (ls : list EventListener) : list nat :=
  flat_map (fun l => map target (react l event)) ls.

(** [l] is none of the listeners [ks]. *)
Definition keeps (ks : list nat) (l : EventListener) : bool :=
  negb (existsb (Nat.eqb (lid l)) ks).

(** The invocations that notify every listener of [ls] of [event], in order. *)
Definition notify (event : GameEvent) (ls : list EventListener) : list (nat * GameEvent) :=
  map (fun l => (lid l, event)) ls.

(** The events delivered to listener [k], oldest first. *)
Definition received (k : nat) (g : GameLoop) : list GameEvent :=
  map snd (filter (fun d => (fst d =? k)%nat) (delivered g)).

(** Two values [Math.random()] may return. *)
Definition draw_zero : Draw := mkDraw 0 eq_refl.
Definition draw_half : Draw := mkDraw (1 # 2) eq_refl.

(** A listener that only observes. *)
Definition observer (k : nat) : EventListener :=
  mkListener k (fun _ => []).

(** A listener that calls its own unsubscribe function when notified. *)
Definition once (k : nat) : EventListener :=
  mkListener k (fun _ => [Unsubscribe k]).

(** An encounter object that does carry the properties [GameLoop] reads. *)
Definition wild (id : string) (level xp_reward : Z) : Encounter.t :=
  Encounter.mk id id "logic" normal ""
    (Some id) (Some (JS.Fin (inject_Z level))) (Some [])
    (Some (JS.Fin (inject_Z xp_reward))).

(** The encounter templates of a zone of the catalog. *)
Definition encounters_of (zoneId : string) : list Encounter.t :=
  match getZone zoneId with
  | Some zone => Zone.encounters zone
  | None => []
  end.

(** The engine after the encounters [es] were captured one after the other,
    every draw being 0 (a draw no chance is below). *)
Definition capture_all (es : list Encounter.t) (g : GameLoop) : GameLoop :=
  fold_left (fun st e => fst (captureAgent e draw_zero st)) es g.

(** Six captures fill the party. *)
Definition full_party : GameLoop :=
  capture_all (map (fun i => wild i 1 10) ["a"; "b"; "c"; "d"; "e"; "f"])
    (constructor "Ada").

(** Every template of the starting zone captured. *)
Definition cleared : GameLoop :=
  capture_all (encounters_of "recursion-depths") (constructor "Ada").

(** The first template of "gateway-nexus", as the catalog has it. *)
Definition routing_ghost : Encounter.t :=
  enc "routing-ghost" "Routing Ghost" "gateway" normal
    "Sends you in circles if you don't know your destination.".

(** The chance of [captureAgent] computed in IEEE binary64, the arithmetic
    JavaScript really uses; it serves only to cross-check the rational model
    on the two extreme examples. *)
Module Float64.
#[local] Set Warnings "-inexact-float".

Definition min64 (a b : float) : float :=
  if (PrimFloat.is_nan a || PrimFloat.is_nan b)%bool then PrimFloat.nan
  else if PrimFloat.ltb a b then a else b.

Definition max64 (a b : float) : float :=
  if (PrimFloat.is_nan a || PrimFloat.is_nan b)%bool then PrimFloat.nan
  else if PrimFloat.ltb a b then b else a.

Definition chance64 (playerLevel encounterLevel : float) : float :=
  (0.5 + (playerLevel - encounterLevel) * 0.1)%float.

Definition clamp64 (c : float) : float :=
  max64 0.1%float (min64 0.95%float c).

Definition one_tenth : float := 0.1%float.
Definition ninety_five_hundredths : float := 0.95%float.

End Float64.

(** How many times the listener [k] is registered in [ls]. *)
Definition registrations (k : nat) (ls : list EventListener) : nat :=
  length (filter (fun l => (lid l =? k)%nat) ls).

(** No callback of [ls] ever unsubscribes the listener [k]. *)
Definition never_unsubscribed (k : nat) (ls : list EventListener) : Prop :=
  forall (l : EventListener) (event : GameEvent),
    In l ls -> ~ In (Unsubscribe k) (react l event).

(** The [level_up] event of a gain, if the threshold is reached. *)
Definition level_up_if_reached (p : PlayerState) (amount : JS.num) : list GameEvent :=
  if JS.ge (JS.add (Player.xp p) amount) (JS.mul (Player.level p) (JS.Fin 100))
  then [level_up (JS.add (Player.level p) (JS.Fin 1))]
  else [].

(** ** Sequences of calls *)

(** One call on the engine from outside: the public methods, and the
    unsubscribe function a former [on] returned. [gainXP] and [emit] are
    private and only run inside these. *)
Inductive Op : Type :=
| OpOn (listener : EventListener)
| OpUnsubscribe (k : nat)
| OpEnterZone (zoneId : string)
| OpTriggerEncounter (encounterId : option string) (random : Draw)
| OpCaptureAgent (e : Encounter.t) (random : Draw).

Definition step (g : GameLoop) (op : Op) : GameLoop :=
  match op with
  | OpOn listener => on listener g
  | OpUnsubscribe k => unsubscribe k g
  | OpEnterZone zoneId => fst (enterZone zoneId g)
  | OpTriggerEncounter encounterId random =>
      fst (triggerEncounter encounterId random g)
  | OpCaptureAgent e random => fst (captureAgent e random g)
  end.

Definition run_ops (ops : list Op) (g : GameLoop) : GameLoop :=
  fold_left step ops g.

(** The events an operation added to those emitted before. *)
Definition zone_enter_if (ok : bool) (zone : Zone.t) : list GameEvent :=
  if ok then [zone_enter zone] else [].

Definition encounter_if (result : option Encounter.t) : list GameEvent :=
  match result with
  | Some e => [encounter e]
  | None => []
  end.

(** [l1] is [l2] cut after some element. *)
Definition prefix_of {A : Type} (l1 l2 : list A) : Prop :=
  exists suffix : list A, l2 = l1 ++ suffix.

(** [level_up] events. *)
Definition is_level_up (event : GameEvent) : bool :=
  match event with
  | level_up _ => true
  | _ => false
  end.

(** The player after [gainXP amount], as a function of the player before. *)
Definition gain_player (amount : JS.num) (p : PlayerState) : PlayerState :=
  let xp1 := JS.add (Player.xp p) amount in
  let xpNeeded := JS.mul (Player.level p) (JS.Fin 100) in
  if JS.ge xp1 xpNeeded
  then set_xp_level (JS.sub xp1 xpNeeded) (JS.add (Player.level p) (JS.Fin 1)) p
  else set_xp_level xp1 (Player.level p) p.

(** How many [level_up] events the engine has emitted. *)
Definition level_ups (g : GameLoop) : nat :=
  length (filter is_level_up (emitted g)).

(** A few calls, for the examples. *)
Definition sample_ops : list Op :=
  [ OpOn (observer 0);
    OpEnterZone "gateway-nexus";
    OpTriggerEncounter None draw_half;
    OpCaptureAgent (wild "b" 2 150) draw_zero;
    OpUnsubscribe 0 ].

(** ** Where the rational arithmetic is that of the code *)

(** The finite binary64 values: [m * 2 ^ e] with a significand of at most
    53 bits and an exponent in range. An IEEE operation whose exact result
    is such a value returns it. *)
Definition binary64 (q : Q) : Prop :=
  exists m e : Z,
    q == inject_Z m * 2 ^ e
    /\ (Z.abs m < 2 ^ 53)%Z
    /\ (-1074 <= e <= 971)%Z.

(** A draw that is a binary64 value and whose product with the pool size
    [n] is one too: [Math.random() * n] is then computed without rounding,
    and [Math.floor] of it is the floor of the exact product. *)
Definition exact_pick (random : Draw) (n : nat) : Prop :=
  binary64 (dval random)
  /\ binary64 (dval random * inject_Z (Z.of_nat n)).

(** [NaN], or an integer of magnitude at most [2 ^ 40]. On such levels,
    experience points and rewards the sums, differences and products of
    [gainXP] and [captureAgent] ([xp + amount], [level * 100],
    [xp - xpNeeded], [level + 1], [level * 15]) are integers below
    [2 ^ 53], which binary64 computes exactly; [NaN] propagates as in the
    model. *)
Definition small_int (a : JS.num) : Prop :=
  a = JS.NaN
  \/ exists z : Z, a = JS.Fin (inject_Z z) /\ (Z.abs z <= 2 ^ 40)%Z.

(** A draw no capture chance is below: the clamp never returns less than
    the double written [0.1]. *)
Definition guaranteed (random : Draw) : Prop := (dval random <= 1 # 10)%Q.

(** ** The game loop with callbacks that call back *)

(** In the definitions above a callback can only call unsubscribe
    functions while it is notified. A listener of the code is any function:
    it may call [on], [enterZone], [triggerEncounter] or [captureAgent] on
    the engine that is notifying it, and go on according to the answers.
    This module gives the operations for such callbacks. An answer [None]
    stands for a call stack that ran out (callbacks that keep calling
    back). *)
Module Reentrant.

(** The body of a callback: the calls it makes on the engine, each with what
    it does next. The three methods are [async]: their state changes and
    emissions happen during the call, but the answer reaches the caller only
    in a later turn, so what a callback does next within the notification
    cannot depend on it. [getPlayerState] is synchronous: a callback may
    read the player and go on accordingly. *)
Inductive Callback : Type :=
| Return
| CallUnsubscribe (k : nat) (next : Callback)
| CallOn (k : nat) (body : GameEvent -> Callback) (next : Callback)
| CallEnterZone (zoneId : string) (next : Callback)
| CallTriggerEncounter (encounterId : option string) (random : Draw)
    (next : Callback)
| CallCaptureAgent (e : Encounter.t) (random : Draw) (next : Callback)
| CallGetPlayerState (next : PlayerState -> Callback).

Record Listener : Type := mkListener {
  lid : nat;
  body : GameEvent -> Callback
}.

Record Engine : Type := mkEngine {
  player : PlayerState;
  listeners : list Listener;
  running : bool;
  tickRate : JS.num;
  console : list (option JS.num * string);
  (* observation only *)
  emitted : list GameEvent;
  delivered : list (nat * GameEvent)
}.

Definition set_player (p : PlayerState) (E : Engine) : Engine :=
  mkEngine p (listeners E) (running E) (tickRate E) (console E)
    (emitted E) (delivered E).

Definition set_listeners (ls : list Listener) (E : Engine) : Engine :=
  mkEngine (player E) ls (running E) (tickRate E) (console E)
    (emitted E) (delivered E).

Definition log_warn (w : option JS.num * string) (E : Engine) : Engine :=
  mkEngine (player E) (listeners E) (running E) (tickRate E)
    (console E ++ [w]) (emitted E) (delivered E).

Definition log_emitted (e : GameEvent) (E : Engine) : Engine :=
  mkEngine (player E) (listeners E) (running E) (tickRate E) (console E)
    (emitted E ++ [e]) (delivered E).

Definition log_delivered (k : nat) (e : GameEvent) (E : Engine) : Engine :=
  mkEngine (player E) (listeners E) (running E) (tickRate E) (console E)
    (emitted E) (delivered E ++ [(k, e)]).

Definition constructor (playerName : string) : Engine :=
  {| player :=
       {| Player.level := JS.Fin 1; Player.xp := JS.Fin 0;
          Player.agents_captured := [];
          Player.current_zone := "recursion-depths";
          Player.position := mkPosition (JS.Fin 0) (JS.Fin 0) (JS.Fin 0);
          Player.party := [] |};
     listeners := [];
     running := false;
     tickRate := JS.Fin 60;
     console := [];
     emitted := [];
     delivered := [] |}.

Definition unsubscribe (k : nat) (E : Engine) : Engine :=
  set_listeners (filter (fun l => negb (lid l =? k)%nat) (listeners E)) E.

Definition on (listener : Listener) (E : Engine) : Engine :=
  set_listeners (listeners E ++ [listener]) E.

Definition getCurrentZone (E : Engine) : option Zone.t :=
  find (fun z => Zone.id z =? Player.current_zone (player E)) ZONES.

Definition eligibleEncounters (zone : Zone.t) (E : Engine) : list Encounter.t :=
  filter
    (fun e => negb (JS.includes (Player.agents_captured (player E)) (Encounter.id e)))
    (Zone.encounters zone).

Section Operations.

(** One callback invocation [l(event)], as the call stack allows. *)
Variable invoke : Listener -> GameEvent -> Engine -> option Engine.

(** [this.listeners.forEach(l => l(event))], over the array held at the
    call. *)
Definition emit (event : GameEvent) (E : Engine) : option Engine :=
  fold_left
    (fun acc l =>
       match acc with
       | Some E' => invoke l event E'
       | None => None
       end)
    (listeners E) (Some (log_emitted event E)).

Definition enterZone (zoneId : string) (E : Engine) : option (Engine * bool) :=
  match find (fun z => Zone.id z =? zoneId) ZONES with
  | None => Some (E, false)
  | Some zone =>
      if JS.lt (Player.level (player E)) (JS.ToNumber (Zone.required_level zone))
      then Some (log_warn (Zone.required_level zone, Zone.name zone) E, false)
      else
        match emit (zone_enter zone)
                (set_player (set_current_zone zoneId (player E)) E) with
        | Some E' => Some (E', true)
        | None => None
        end
  end.

Definition triggerEncounter (encounterId : option string) (random : Draw)
    (E : Engine) : option (Engine * option Encounter.t) :=
  match getCurrentZone E with
  | None => Some (E, None)
  | Some zone =>
      let eligible := eligibleEncounters zone E in
      match eligible with
      | [] => Some (E, None)
      | first :: _ =>
          let selected :=
            match truthy encounterId with
            | Some i =>
                match find (fun e => Encounter.id e =? i) (Zone.encounters zone) with
                | Some e => Some e
                | None => Some first
                end
            | None =>
                nth_error eligible
                  (JS.floor_index (dval random * inject_Z (Z.of_nat (length eligible))))
            end in
          match selected with
          | Some e =>
              match emit (encounter e) E with
              | Some E' => Some (E', Some e)
              | None => None
              end
          | None => Some (E, None)
          end
      end
  end.

Definition gainXP (amount : JS.num) (E : Engine) : option Engine :=
  let xp1 := JS.add (Player.xp (player E)) amount in
  let level := Player.level (player E) in
  let xpNeeded := JS.mul level (JS.Fin 100) in
  if JS.ge xp1 xpNeeded then
    let level' := JS.add level (JS.Fin 1) in
    emit (level_up level')
      (set_player (set_xp_level (JS.sub xp1 xpNeeded) level' (player E)) E)
  else Some (set_player (set_xp_level xp1 level (player E)) E).

Definition captureAgent (e : Encounter.t) (random : Draw) (E : Engine)
    : option (Engine * bool) :=
  if JS.gt (JS.Fin (dval random)) (clamp (captureChance (Player.level (player E)) e))
  then Some (E, false)
  else
    let captured := captured_of e in
    let E1 := set_player (push_captured e captured (player E)) E in
    match emit (capture captured) E1 with
    | Some E2 =>
        (* [gainXP] reads the player as the callbacks left it *)
        match gainXP (JS.ToNumber (Encounter.xp_reward e)) E2 with
        | Some E3 => Some (E3, true)
        | None => None
        end
    | None => None
    end.

(** Running the body of a callback. *)
Fixpoint exec (c : Callback) (E : Engine) : option Engine :=
  match c with
  | Return => Some E
  | CallUnsubscribe k next => exec next (unsubscribe k E)
  | CallOn k b next => exec next (on (mkListener k b) E)
  | CallEnterZone zoneId next =>
      match enterZone zoneId E with
      | Some (E', _) => exec next E'
      | None => None
      end
  | CallTriggerEncounter encounterId random next =>
      match triggerEncounter encounterId random E with
      | Some (E', _) => exec next E'
      | None => None
      end
  | CallCaptureAgent e random next =>
      match captureAgent e random E with
      | Some (E', _) => exec next E'
      | None => None
      end
  | CallGetPlayerState next => exec (next (player E)) E
  end.

End Operations.

(** Callback invocation with [depth] frames of call stack left for the
    callbacks. *)
Fixpoint invoke (depth : nat) (l : Listener) (event : GameEvent) (E : Engine)
    : option Engine :=
  match depth with
  | O => None
  | S d => exec (invoke d) (body l event) (log_delivered (lid l) event E)
  end.

(** A callback that only calls unsubscribe functions. *)
Fixpoint passive (c : Callback) : Prop :=
  match c with
  | Return => True
  | CallUnsubscribe _ next => passive next
  | _ => False
  end.

(** The unsubscribe calls of a passive callback. *)
Fixpoint cmds_of (c : Callback) : list Cmd :=
  match c with
  | CallUnsubscribe k next => Unsubscribe k :: cmds_of next
  | _ => []
  end.

(** No listener registered calls back into the engine. *)
Definition all_passive (E : Engine) : Prop :=
  forall (l : Listener) (event : GameEvent),
    In l (listeners E) -> passive (body l event).

End Reentrant.

(** An engine whose callbacks are passive, seen as a [GameLoop]. *)
Definition view_listener (l : Reentrant.Listener) : EventListener :=
  mkListener (Reentrant.lid l) (fun event => Reentrant.cmds_of (Reentrant.body l event)).

Definition view (E : Reentrant.Engine) : GameLoop :=
  mkGameLoop (Reentrant.player E) (map view_listener (Reentrant.listeners E))
    (Reentrant.running E) (Reentrant.tickRate E) (Reentrant.console E)
    (Reentrant.emitted E) (Reentrant.delivered E).

(** A listener that only observes, and one that triggers an encounter of its
    own as soon as a zone is entered. *)
Definition watcher (k : nat) : Reentrant.Listener :=
  Reentrant.mkListener k (fun _ => Reentrant.Return).

Definition eager (k : nat) : Reentrant.Listener :=
  Reentrant.mkListener k
    (fun event =>
       match event with
       | zone_enter _ =>
           Reentrant.CallTriggerEncounter None draw_zero Reentrant.Return
       | _ => Reentrant.Return
       end).

(** A listener that goes back to the starting zone whenever another zone is
    entered. *)
Definition homesick (k : nat) : Reentrant.Listener :=
  Reentrant.mkListener k
    (fun event =>
       match event with
       | zone_enter zone =>
           if Zone.id zone =? "recursion-depths" then Reentrant.Return
           else Reentrant.CallEnterZone "recursion-depths" Reentrant.Return
       | _ => Reentrant.Return
       end).

(** ** The listener list during [emit] *)

Lemma set_listeners_same (g : GameLoop) : set_listeners (listeners g) g = g.
Proof. destruct g; reflexivity. Qed.

Lemma filter_all {A : Type} (f : A -> bool) (l : list A) :
  (forall a, f a = true) -> filter f l = l.
Proof.
  intros Hf; induction l as [|a l IH]; simpl; [reflexivity|].
  rewrite Hf, IH; reflexivity.
Qed.

Lemma filter_twice {A : Type} (f h : A -> bool) (l : list A) :
  filter h (filter f l) = filter (fun a => f a && h a) l.
Proof.
  induction l as [|a l IH]; simpl; [reflexivity|].
  destruct (f a); simpl; [destruct (h a)|]; rewrite IH; reflexivity.
Qed.

Lemma keeps_app (ks1 ks2 : list nat) (l : EventListener) :
  keeps (ks1 ++ ks2) l = keeps ks1 l && keeps ks2 l.
Proof. unfold keeps; rewrite existsb_app, negb_orb; reflexivity. Qed.

Lemma keeps_cons (k : nat) (ks : list nat) (l : EventListener) :
  keeps (k :: ks) l = negb (lid l =? k)%nat && keeps ks l.
Proof. unfold keeps; simpl; rewrite negb_orb; reflexivity. Qed.

Lemma fold_run_eq (cmds : list Cmd) : forall g : GameLoop,
  fold_left run cmds g
  = set_listeners (filter (keeps (map target cmds)) (listeners g)) g.
Proof.
  induction cmds as [|c cmds IH]; intros g; simpl.
  - rewrite filter_all by reflexivity. symmetry; apply set_listeners_same.
  - rewrite IH. destruct c as [k]; simpl.
    unfold unsubscribe, set_listeners; simpl.
    rewrite filter_twice. f_equal.
    apply filter_ext; intros l. rewrite keeps_cons; reflexivity.
Qed.

Lemma call_eq (event : GameEvent) (g : GameLoop) (l : EventListener) :
  call event g l
  = mkGameLoop (player g)
      (filter (keeps (map target (react l event))) (listeners g))
      (running g) (tickRate g) (console g) (emitted g)
      (delivered g ++ [(lid l, event)]).
Proof. unfold call; rewrite fold_run_eq; reflexivity. Qed.

Lemma fold_call_eq (event : GameEvent) (ls : list EventListener) :
  forall g : GameLoop,
  fold_left (call event) ls g
  = mkGameLoop (player g)
      (filter (keeps (unsubscribed event ls)) (listeners g))
      (running g) (tickRate g) (console g) (emitted g)
      (delivered g ++ notify event ls).
Proof.
  induction ls as [|l ls IH]; intros g; simpl.
  - rewrite filter_all by reflexivity. rewrite app_nil_r.
    destruct g; reflexivity.
  - rewrite IH, call_eq; simpl.
    rewrite filter_twice, <- app_assoc; simpl.
    f_equal. apply filter_ext; intros a. rewrite keeps_app; reflexivity.
Qed.

(** [emit] in closed form: the player is untouched, every listener of the
    list held at the call is invoked once, in order, and the listeners that
    were unsubscribed meanwhile are gone afterwards. *)
Lemma emit_eq (event : GameEvent) (g : GameLoop) :
  emit event g
  = mkGameLoop (player g)
      (filter (keeps (unsubscribed event (listeners g))) (listeners g))
      (running g) (tickRate g) (console g) (emitted g ++ [event])
      (delivered g ++ notify event (listeners g)).
Proof. unfold emit; rewrite fold_call_eq; reflexivity. Qed.

Lemma emit_player (event : GameEvent) (g : GameLoop) :
  player (emit event g) = player g.
Proof. rewrite emit_eq; reflexivity. Qed.

Lemma emit_emitted (event : GameEvent) (g : GameLoop) :
  emitted (emit event g) = emitted g ++ [event].
Proof. rewrite emit_eq; reflexivity. Qed.

Lemma emit_delivered (event : GameEvent) (g : GameLoop) :
  delivered (emit event g) = delivered g ++ notify event (listeners g).
Proof. rewrite emit_eq; reflexivity. Qed.

Lemma emit_listeners (event : GameEvent) (g : GameLoop) :
  listeners (emit event g)
  = filter (keeps (unsubscribed event (listeners g))) (listeners g).
Proof. rewrite emit_eq; reflexivity. Qed.

(** ** Construction *)

(** C10. Whatever [playerName] is, the constructed engine is the same:
    level 1, xp 0, nothing captured, an empty party, position (0,0,0) and
    current zone "recursion-depths", which [getCurrentZone] resolves to a
    zone of [ZONES]; [playerName] is not stored, so two engines built from
    different names are equal, and so is everything computed from them. *)
Theorem constructor_initial_state : forall playerName : string,
  let g := constructor playerName in
  Player.level (player g) = JS.Fin 1
  /\ Player.xp (player g) = JS.Fin 0
  /\ Player.agents_captured (player g) = []
  /\ Player.party (player g) = []
  /\ Player.position (player g) = mkPosition (JS.Fin 0) (JS.Fin 0) (JS.Fin 0)
  /\ Player.current_zone (player g) = "recursion-depths"
  /\ listeners g = []
  /\ (exists zone : Zone.t,
        getCurrentZone g = Some zone
        /\ In zone ZONES
        /\ Zone.id zone = "recursion-depths")
  /\ (forall otherName : string, constructor otherName = g).
Proof.
  intros playerName g; subst g.
  repeat (split; [reflexivity|]).
  split; [|reflexivity].
  eexists; split; [reflexivity|]. split; [|reflexivity].
  left; reflexivity.
Qed.

(** ** Entering a zone *)

Lemma lt_undefined (a : JS.num) : JS.lt a (JS.ToNumber None) = false.
Proof. destruct a; reflexivity. Qed.

(** No zone object of the catalog has a [required_level] property. *)
Lemma catalog_required_level (zone : Zone.t) :
  In zone ZONES -> Zone.required_level zone = None.
Proof.
  intros H; repeat (destruct H as [H|H]; [subst zone; reflexivity|]).
  destruct H.
Qed.

(** An unknown id is refused and nothing changes. *)
Lemma enterZone_unknown (zoneId : string) (g : GameLoop) :
  getZone zoneId = None -> enterZone zoneId g = (g, false).
Proof. unfold getZone, enterZone; intros ->; reflexivity. Qed.

(** For a zone of the catalog the comparison of [enterZone] is against
    [undefined], so the zone is entered at any player level. *)
Lemma enterZone_known (zoneId : string) (zone : Zone.t) (g : GameLoop) :
  getZone zoneId = Some zone ->
  enterZone zoneId g
  = (emit (zone_enter zone)
       (set_player (set_current_zone zoneId (player g)) g), true).
Proof.
  unfold getZone, enterZone; intros H; rewrite H.
  apply find_some in H; destruct H as [H _].
  rewrite (catalog_required_level zone H), lt_undefined; reflexivity.
Qed.

(** C1. The level gate of [enterZone] reads [zone.required_level], while the
    zones of the catalog carry [requiredLevel]. A new player (level 1) asks
    for "compute-forge" (required level 5): the call answers [true], the
    current zone becomes "compute-forge" and a [zone_enter] event is
    emitted, where the gate should have refused. *)
Theorem enterZone_gate_reads_missing_property :
  let g := constructor "Ada" in
  exists zone : Zone.t,
    getZone "compute-forge" = Some zone
    /\ Zone.requiredLevel zone = JS.Fin 5
    /\ Player.level (player g) = JS.Fin 1
    /\ JS.lt (Player.level (player g)) (Zone.requiredLevel zone) = true
    /\ snd (enterZone "compute-forge" g) = true
    /\ Player.current_zone (player (fst (enterZone "compute-forge" g)))
       = "compute-forge"
    /\ emitted (fst (enterZone "compute-forge" g)) = [zone_enter zone].
Proof.
  intros g; subst g.
  eexists; split; [reflexivity|].
  repeat (split; [reflexivity|]). reflexivity.
Qed.

(** ** Comparisons of finite numbers *)

Lemma Qle_bool_false (a b : Q) : Qle_bool a b = false <-> (b < a)%Q.
Proof.
  split; intros H.
  - apply Qnot_le_lt; intros Hle. apply Qle_bool_iff in Hle; congruence.
  - destruct (Qle_bool a b) eqn:E; [|reflexivity].
    apply Qle_bool_iff in E. exfalso; exact (Qlt_not_le _ _ H E).
Qed.

Lemma Qlt_bool_iff (a b : Q) : JS.Qlt_bool a b = true <-> (a < b)%Q.
Proof.
  unfold JS.Qlt_bool; rewrite negb_true_iff; apply Qle_bool_false.
Qed.

Lemma Qlt_bool_false (a b : Q) : JS.Qlt_bool a b = false <-> (b <= a)%Q.
Proof.
  unfold JS.Qlt_bool; rewrite negb_false_iff; apply Qle_bool_iff.
Qed.

(** ** Gaining experience *)

Lemma gainXP_below (g : GameLoop) (L X A : Q) :
  Player.level (player g) = JS.Fin L ->
  Player.xp (player g) = JS.Fin X ->
  (X + A < L * 100)%Q ->
  gainXP (JS.Fin A) g
  = set_player (set_xp_level (JS.Fin (X + A)) (JS.Fin L) (player g)) g.
Proof.
  intros HL HX Hlt; unfold gainXP; rewrite HL, HX; simpl.
  apply Qle_bool_false in Hlt; rewrite Hlt; reflexivity.
Qed.

Lemma gainXP_reached (g : GameLoop) (L X A : Q) :
  Player.level (player g) = JS.Fin L ->
  Player.xp (player g) = JS.Fin X ->
  (L * 100 <= X + A)%Q ->
  gainXP (JS.Fin A) g
  = emit (level_up (JS.Fin (L + 1)))
      (set_player
         (set_xp_level (JS.Fin (X + A - L * 100)) (JS.Fin (L + 1)) (player g)) g).
Proof.
  intros HL HX Hle; unfold gainXP; rewrite HL, HX; simpl.
  apply Qle_bool_iff in Hle; rewrite Hle; reflexivity.
Qed.

Lemma Q_of_Z_lt_gain (l x a : Z) :
  (x + a < l * 100)%Z <-> (inject_Z x + inject_Z a < inject_Z l * 100)%Q.
Proof.
  change 100%Q with (inject_Z 100).
  rewrite <- inject_Z_plus, <- inject_Z_mult, <- Zlt_Qlt. reflexivity.
Qed.

Lemma Q_of_Z_le_gain (l x a : Z) :
  (l * 100 <= x + a)%Z <-> (inject_Z l * 100 <= inject_Z x + inject_Z a)%Q.
Proof.
  change 100%Q with (inject_Z 100).
  rewrite <- inject_Z_plus, <- inject_Z_mult, <- Zle_Qle. reflexivity.
Qed.

(** C2, as the code has it. [gainXP] tests the threshold once. Take a level
    [l], experience [x] and a gain [a] that are integers of magnitude at
    most [2 ^ 40], the level not negative (on these the additions,
    the product and the subtraction of [gainXP] are exact in binary64). A
    gain below the threshold [l * 100] only adds to xp; otherwise one
    threshold is subtracted, the level goes up by one and one [level_up]
    event is emitted, whatever surplus is left. So xp is below
    [level * 100] afterwards exactly when [x + a < (2 * l + 1) * 100], and a
    gain of 250 at level 1, xp 0 ends at level 2 with xp 150. *)
Theorem gainXP_rolls_over_once :
  (forall (g : GameLoop) (l x a : Z),
     Player.level (player g) = JS.Fin (inject_Z l) ->
     Player.xp (player g) = JS.Fin (inject_Z x) ->
     (0 <= l <= 2 ^ 40)%Z ->
     (Z.abs x <= 2 ^ 40)%Z ->
     (Z.abs a <= 2 ^ 40)%Z ->
     let L := inject_Z l in
     let X := inject_Z x in
     let A := inject_Z a in
     let g' := gainXP (JS.Fin A) g in
     ((x + a < l * 100)%Z ->
        g' = set_player (set_xp_level (JS.Fin (X + A)) (JS.Fin L) (player g)) g)
     /\ ((l * 100 <= x + a)%Z ->
        g' = emit (level_up (JS.Fin (L + 1)))
               (set_player
                  (set_xp_level (JS.Fin (X + A - L * 100)) (JS.Fin (L + 1))
                     (player g)) g))
     /\ (JS.lt (Player.xp (player g'))
           (JS.mul (Player.level (player g')) (JS.Fin 100)) = true
         <-> (x + a < (2 * l + 1) * 100)%Z))
  /\ (forall playerName : string,
        let p := player (gainXP (JS.Fin 250) (constructor playerName)) in
        Player.level p = JS.Fin 2 /\ Player.xp p = JS.Fin 150).
Proof.
  split.
  - intros g l x a HL HX Hl Hx Ha L X A g'; subst L X A g'.
    split; [intros H; apply gainXP_below; try assumption;
            apply Q_of_Z_lt_gain; exact H|].
    split; [intros H; apply gainXP_reached; try assumption;
            apply Q_of_Z_le_gain; exact H|].
    assert (Hiff : (x + a < (2 * l + 1) * 100)%Z
                   <-> (inject_Z x + inject_Z a
                        < (2 * inject_Z l + 1) * 100)%Q).
    { change 100%Q with (inject_Z 100). change 2%Q with (inject_Z 2).
      change 1%Q with (inject_Z 1).
      rewrite <- inject_Z_plus, <- inject_Z_mult, <- inject_Z_plus,
        <- inject_Z_mult, <- Zlt_Qlt. reflexivity. }
    assert (HL0 : (0 <= inject_Z l)%Q).
    { change 0%Q with (inject_Z 0). rewrite <- Zle_Qle. lia. }
    rewrite Hiff.
    destruct (Qlt_le_dec (inject_Z x + inject_Z a) (inject_Z l * 100))
      as [Hlt|Hle].
    + rewrite (gainXP_below g _ _ _ HL HX Hlt); simpl.
      rewrite Qlt_bool_iff. split; intros _; [lra|exact Hlt].
    + rewrite (gainXP_reached g _ _ _ HL HX Hle), emit_player; simpl.
      rewrite Qlt_bool_iff. split; intros H; lra.
  - intros playerName; split; reflexivity.
Qed.

Lemma gainXP_rolls_over_once_witness :
  let g := constructor "Ada" in
  Player.level (player g) = JS.Fin (inject_Z 1)
  /\ Player.xp (player g) = JS.Fin (inject_Z 0)
  /\ (0 <= 1 <= 2 ^ 40)%Z
  /\ (Z.abs 0 <= 2 ^ 40)%Z
  /\ (Z.abs 250 <= 2 ^ 40)%Z
  /\ (1 * 100 <= 0 + 250)%Z
  /\ gainXP (JS.Fin (inject_Z 250)) g
     = emit (level_up (JS.Fin (inject_Z 1 + 1)))
         (set_player
            (set_xp_level (JS.Fin (inject_Z 0 + inject_Z 250 - inject_Z 1 * 100))
               (JS.Fin (inject_Z 1 + 1)) (player g)) g).
Proof.
  intros g.
  assert (Hl : (0 <= 1 <= 2 ^ 40)%Z) by (split; discriminate).
  assert (Hx : (Z.abs 0 <= 2 ^ 40)%Z) by discriminate.
  assert (Ha : (Z.abs 250 <= 2 ^ 40)%Z) by discriminate.
  assert (H1 : (1 * 100 <= 0 + 250)%Z) by discriminate.
  repeat (split; [first [reflexivity | assumption]|]).
  exact (proj1 (proj2 (proj1 gainXP_rolls_over_once g 1%Z 0%Z 250%Z
                         eq_refl eq_refl Hl Hx Ha)) H1).
Defined.

(** C2, as stated, fails: after a gain of 250 at level 1, xp 0 the player is
    not at level 3 with xp 50, and after a gain of 350 xp is not below
    [level * 100]. *)
Lemma gainXP_250_counterexample :
  ~ (let p := player (gainXP (JS.Fin 250) (constructor "Ada")) in
     Player.level p = JS.Fin 3 /\ Player.xp p = JS.Fin 50)
  /\ ~ (let p := player (gainXP (JS.Fin 350) (constructor "Ada")) in
        JS.lt (Player.xp p) (JS.mul (Player.level p) (JS.Fin 100)) = true).
Proof.
  split.
  - intros [H _]; vm_compute in H; discriminate H.
  - intros H; vm_compute in H; discriminate H.
Qed.

(** ** Capturing an agent *)

Lemma captureChance_finite (e : Encounter.t) (pl el : Q) :
  Encounter.level e = Some (JS.Fin el) ->
  captureChance (JS.Fin pl) e = JS.Fin ((1 # 2) + (pl - el) * (1 # 10)).
Proof. unfold captureChance; intros ->; reflexivity. Qed.

(** The clamp of a finite chance, case by case. *)
Lemma clamp_finite (raw : Q) :
  exists c : Q,
    clamp (JS.Fin raw) = JS.Fin c
    /\ ((1 # 10) <= c <= (19 # 20))%Q
    /\ ((raw <= (1 # 10))%Q -> c == (1 # 10))
    /\ (((19 # 20) <= raw)%Q -> c == (19 # 20))
    /\ (((1 # 10) <= raw <= (19 # 20))%Q -> c == raw).
Proof.
  unfold clamp; simpl.
  destruct (Qle_bool (19 # 20) raw) eqn:Hhi.
  - apply Qle_bool_iff in Hhi.
    eexists; split; [reflexivity|]; simpl.
    repeat split; intros; lra.
  - apply Qle_bool_false in Hhi.
    destruct (Qle_bool (1 # 10) raw) eqn:Hlo.
    + apply Qle_bool_iff in Hlo.
      eexists; split; [reflexivity|]. repeat split; intros; lra.
    + apply Qle_bool_false in Hlo.
      eexists; split; [reflexivity|]. repeat split; intros; lra.
Qed.

(** The draw decides: a finite chance [c] is beaten exactly by the draws
    above it. *)
Lemma captureAgent_succeeds_iff (g : GameLoop) (e : Encounter.t)
    (random : Draw) (c : Q) :
  clamp (captureChance (Player.level (player g)) e) = JS.Fin c ->
  (snd (captureAgent e random g) = true <-> (dval random <= c)%Q).
Proof.
  intros Hc; unfold captureAgent; rewrite Hc; simpl.
  destruct (JS.Qlt_bool c (dval random)) eqn:E; simpl.
  - apply Qlt_bool_iff in E. split; [discriminate|intros H; lra].
  - apply Qlt_bool_false in E. split; [intros _; exact E|reflexivity].
Qed.

(** C3. [captureAgent] reads [encounter.level], a property that the
    [Encounter] interface of levels/index.ts does not declare and that no
    encounter object of the catalog has. For the template the engine itself
    hands out ("routing-ghost", returned by [triggerEncounter] in
    "gateway-nexus") the chance is therefore [NaN], not a number between 0.1
    and 0.95, and the test [Math.random() > chance] is false for every draw:
    the capture goes through for a draw of 31/32, above 0.95, where the
    clamp should have refused it, and for any other draw. *)
Theorem captureAgent_chance_is_not_a_number :
  let g := constructor "Ada" in
  let high := mkDraw (31 # 32) eq_refl in
  snd (triggerEncounter (Some "routing-ghost") draw_zero
         (fst (enterZone "gateway-nexus" g))) = Some routing_ghost
  /\ Encounter.level routing_ghost = None
  /\ clamp (captureChance (Player.level (player g)) routing_ghost) = JS.NaN
  /\ (19 # 20 < dval high)%Q
  /\ snd (captureAgent routing_ghost high g) = true
  /\ (forall random : Draw, snd (captureAgent routing_ghost random g) = true).
Proof.
  intros g high.
  repeat (split; [reflexivity|]).
  intros random. reflexivity.
Qed.

(** In binary64 the two extreme examples give the doubles written [0.1] and
    [0.95] in the source, as in the rational model. *)
Lemma captureChance_binary64_extremes :
  Float64.clamp64 (Float64.chance64 1%float 50%float) = Float64.one_tenth
  /\ Float64.clamp64 (Float64.chance64 50%float 1%float)
     = Float64.ninety_five_hundredths.
Proof. split; reflexivity. Qed.

(** In binary64 too a missing level makes the chance [NaN] ([1 - undefined]
    is [NaN]), and no draw is above [NaN]. *)
Lemma captureChance_binary64_missing_level :
  PrimFloat.is_nan (Float64.clamp64 (Float64.chance64 1%float PrimFloat.nan))
  = true
  /\ PrimFloat.ltb
       (Float64.clamp64 (Float64.chance64 1%float PrimFloat.nan))
       0.96875%float = false.
Proof. split; reflexivity. Qed.

(** In binary64 the clamp of a chance that is a number is one of the two
    bounds or the chance itself, then lying between them. *)
Lemma clamp64_cases (c : float) :
  PrimFloat.is_nan c = false ->
  Float64.clamp64 c = Float64.one_tenth
  \/ Float64.clamp64 c = Float64.ninety_five_hundredths
  \/ (Float64.clamp64 c = c
      /\ PrimFloat.ltb Float64.one_tenth c = true
      /\ PrimFloat.ltb Float64.ninety_five_hundredths c = false).
Proof.
  intros Hc. unfold Float64.clamp64, Float64.min64.
  match goal with
  | |- context [(PrimFloat.is_nan ?b || PrimFloat.is_nan c)%bool] =>
      change (PrimFloat.is_nan b) with false
  end.
  rewrite Hc. cbn [orb].
  fold Float64.ninety_five_hundredths. fold Float64.one_tenth.
  destruct (PrimFloat.ltb Float64.ninety_five_hundredths c) eqn:Hhi.
  - right; left. reflexivity.
  - unfold Float64.max64.
    change (PrimFloat.is_nan Float64.one_tenth) with false. rewrite Hc.
    cbn [orb].
    destruct (PrimFloat.ltb Float64.one_tenth c) eqn:Hlo.
    + right; right. repeat split; reflexivity.
    + left. reflexivity.
Qed.

(** C4. A failed draw leaves the engine as it was: [captureAgent] answers
    [false] without touching the player (level, xp, captured ids, party,
    current zone) and without emitting or delivering any event; and the
    draw fails whenever it is above the clamped chance. *)
Theorem captureAgent_failure_changes_nothing :
  forall (g : GameLoop) (e : Encounter.t) (random : Draw),
    (snd (captureAgent e random g) = false -> fst (captureAgent e random g) = g)
    /\ (forall c : Q,
          clamp (captureChance (Player.level (player g)) e) = JS.Fin c ->
          (c < dval random)%Q ->
          captureAgent e random g = (g, false)).
Proof.
  intros g e random; split.
  - unfold captureAgent.
    destruct (JS.gt _ _); simpl; [reflexivity|discriminate].
  - intros c Hc Hlt. unfold captureAgent; rewrite Hc; simpl.
    apply Qlt_bool_iff in Hlt; rewrite Hlt; reflexivity.
Qed.

Lemma captureAgent_failure_changes_nothing_witness :
  let g := on (observer 0) (constructor "Ada") in
  let e := wild "stack-spirit" 50 40 in
  clamp (captureChance (Player.level (player g)) e) = JS.Fin (1 # 10)
  /\ ((1 # 10) < dval draw_half)%Q
  /\ captureAgent e draw_half g = (g, false).
Proof.
  intros g e.
  assert (Hc : clamp (captureChance (Player.level (player g)) e) = JS.Fin (1 # 10))
    by reflexivity.
  assert (Hlt : ((1 # 10) < dval draw_half)%Q) by reflexivity.
  split; [exact Hc|]. split; [exact Hlt|].
  exact (proj2 (captureAgent_failure_changes_nothing g e draw_half) (1 # 10) Hc Hlt).
Defined.

(** ** What the operations leave alone *)

Lemma gainXP_keeps (amount : JS.num) (g : GameLoop) :
  Player.party (player (gainXP amount g)) = Player.party (player g)
  /\ Player.agents_captured (player (gainXP amount g))
     = Player.agents_captured (player g)
  /\ Player.current_zone (player (gainXP amount g))
     = Player.current_zone (player g).
Proof.
  unfold gainXP; destruct (JS.ge _ _); rewrite ?emit_player; simpl; auto.
Qed.

Lemma triggerEncounter_player (encounterId : option string) (random : Draw)
    (g : GameLoop) :
  player (fst (triggerEncounter encounterId random g)) = player g.
Proof.
  unfold triggerEncounter.
  destruct (getCurrentZone g) as [zone|]; [|reflexivity].
  destruct (eligibleEncounters zone g) as [|first rest]; [reflexivity|].
  match goal with
  | |- context [match ?sel with Some _ => _ | None => _ end] =>
      destruct sel as [e|]
  end; simpl; rewrite ?emit_player; reflexivity.
Qed.

Lemma enterZone_party (zoneId : string) (g : GameLoop) :
  Player.party (player (fst (enterZone zoneId g))) = Player.party (player g).
Proof.
  unfold enterZone.
  destruct (find _ ZONES) as [zone|]; [|reflexivity].
  destruct (JS.lt _ _); simpl; rewrite ?emit_player; reflexivity.
Qed.

Lemma push_captured_party (e : Encounter.t) (c : CapturedAgent.t)
    (p : PlayerState) :
  (length (Player.party p) <= 6)%nat ->
  (length (Player.party (push_captured e c p)) <= 6)%nat.
Proof.
  intros H; unfold push_captured; simpl.
  destruct (length (Player.party p) <? 6)%nat eqn:E; [|exact H].
  apply Nat.ltb_lt in E. rewrite length_app; simpl; lia.
Qed.

(** A capture that goes through, in closed form. *)
Lemma captureAgent_success (e : Encounter.t) (random : Draw) (g : GameLoop) :
  JS.gt (JS.Fin (dval random)) (clamp (captureChance (Player.level (player g)) e))
  = false ->
  captureAgent e random g
  = (gainXP (JS.ToNumber (Encounter.xp_reward e))
       (emit (capture (captured_of e))
          (set_player (push_captured e (captured_of e) (player g)) g)), true).
Proof. unfold captureAgent; intros ->; reflexivity. Qed.

Lemma captureAgent_party (e : Encounter.t) (random : Draw) (g : GameLoop) :
  (length (Player.party (player g)) <= 6)%nat ->
  (length (Player.party (player (fst (captureAgent e random g)))) <= 6)%nat.
Proof.
  intros H; unfold captureAgent.
  destruct (JS.gt _ _); simpl; [exact H|].
  destruct (gainXP_keeps (JS.ToNumber (Encounter.xp_reward e))
              (emit (capture (captured_of e))
                 (set_player (push_captured e (captured_of e) (player g)) g)))
    as [-> _].
  rewrite emit_player; simpl.
  apply (push_captured_party e (captured_of e) (player g) H).
Qed.

Lemma includes_In (xs : list string) (s : string) :
  JS.includes xs s = true <-> In s xs.
Proof.
  unfold JS.includes; rewrite existsb_exists; split.
  - intros (y & Hy & E). apply String.eqb_eq in E; subst; exact Hy.
  - intros H; exists s; split; [exact H|apply String.eqb_refl].
Qed.

Lemma eligible_not_captured (zone : Zone.t) (g : GameLoop) (e : Encounter.t) :
  In e (eligibleEncounters zone g) ->
  In e (Zone.encounters zone)
  /\ ~ In (Encounter.id e) (Player.agents_captured (player g)).
Proof.
  unfold eligibleEncounters; intros H; apply filter_In in H.
  destruct H as [Hin Hneg]; split; [exact Hin|].
  intros Hcap; apply includes_In in Hcap. rewrite Hcap in Hneg; discriminate.
Qed.

(** C5. No operation makes the party longer than six. A capture that goes
    through with six agents in the party still answers [true] and records
    the template id among the captured ids, so that no pool of eligible
    encounters offers it any more, and the party is left as it was. *)
Theorem party_capped_at_six :
  (forall g : GameLoop,
     (length (Player.party (player g)) <= 6)%nat ->
     (forall l, (length (Player.party (player (on l g))) <= 6)%nat)
     /\ (forall k, (length (Player.party (player (unsubscribe k g))) <= 6)%nat)
     /\ (forall event, (length (Player.party (player (emit event g))) <= 6)%nat)
     /\ (forall zoneId,
          (length (Player.party (player (fst (enterZone zoneId g)))) <= 6)%nat)
     /\ (forall encounterId random,
          (length (Player.party
                     (player (fst (triggerEncounter encounterId random g))))
           <= 6)%nat)
     /\ (forall amount,
          (length (Player.party (player (gainXP amount g))) <= 6)%nat)
     /\ (forall e random,
          (length (Player.party (player (fst (captureAgent e random g))))
           <= 6)%nat))
  /\ (forall (g : GameLoop) (e : Encounter.t) (random : Draw),
        length (Player.party (player g)) = 6%nat ->
        JS.gt (JS.Fin (dval random))
          (clamp (captureChance (Player.level (player g)) e)) = false ->
        let g' := fst (captureAgent e random g) in
        snd (captureAgent e random g) = true
        /\ In (Encounter.id e) (Player.agents_captured (player g'))
        /\ Player.party (player g') = Player.party (player g)
        /\ length (Player.party (player g')) = 6%nat
        /\ (forall zone e',
              In e' (eligibleEncounters zone g') ->
              Encounter.id e' <> Encounter.id e)).
Proof.
  split.
  - intros g H. repeat split; intros.
    + exact H.
    + exact H.
    + rewrite emit_player; exact H.
    + rewrite enterZone_party; exact H.
    + rewrite triggerEncounter_player; exact H.
    + destruct (gainXP_keeps amount g) as [-> _]; exact H.
    + apply captureAgent_party; exact H.
  - intros g e random Hfull Hdraw g'; subst g'.
    rewrite (captureAgent_success e random g Hdraw); simpl.
    destruct (gainXP_keeps (JS.ToNumber (Encounter.xp_reward e))
                (emit (capture (captured_of e))
                   (set_player (push_captured e (captured_of e) (player g)) g)))
      as (Hparty & Hcaptured & _).
    rewrite emit_player in Hparty, Hcaptured; simpl in Hparty, Hcaptured.
    rewrite Hfull in Hparty; simpl in Hparty.
    assert (Hin : In (Encounter.id e)
                    (Player.agents_captured
                       (player
                          (gainXP (JS.ToNumber (Encounter.xp_reward e))
                             (emit (capture (captured_of e))
                                (set_player
                                   (push_captured e (captured_of e) (player g))
                                   g)))))).
    { rewrite Hcaptured. apply in_or_app; right; left; reflexivity. }
    split; [reflexivity|]. split; [exact Hin|].
    split; [exact Hparty|]. split; [rewrite Hparty; exact Hfull|].
    intros zone e' He' Heq.
    apply eligible_not_captured in He'. destruct He' as [_ Hnot].
    apply Hnot. rewrite Heq; exact Hin.
Qed.

Lemma party_capped_at_six_witness :
  let e := wild "g" 1 10 in
  length (Player.party (player full_party)) = 6%nat
  /\ JS.gt (JS.Fin (dval draw_half))
       (clamp (captureChance (Player.level (player full_party)) e)) = false
  /\ snd (captureAgent e draw_half full_party) = true
  /\ In (Encounter.id e)
       (Player.agents_captured (player (fst (captureAgent e draw_half full_party))))
  /\ length (Player.party (player (fst (captureAgent e draw_half full_party))))
     = 6%nat.
Proof.
  intros e.
  assert (H6 : length (Player.party (player full_party)) = 6%nat) by reflexivity.
  assert (Hd : JS.gt (JS.Fin (dval draw_half))
                 (clamp (captureChance (Player.level (player full_party)) e))
               = false) by reflexivity.
  split; [exact H6|]. split; [exact Hd|].
  destruct (proj2 party_capped_at_six full_party e draw_half H6 Hd)
    as (Hret & Hin & _ & Hlen & _).
  split; [exact Hret|]. split; [exact Hin|exact Hlen].
Defined.

(** ** Triggering an encounter *)

Lemma eligible_exhausted (zone : Zone.t) (g : GameLoop) :
  (forall e, In e (Zone.encounters zone) ->
             In (Encounter.id e) (Player.agents_captured (player g))) ->
  eligibleEncounters zone g = [].
Proof.
  unfold eligibleEncounters.
  induction (Zone.encounters zone) as [|e es IH]; intros H; simpl;
    [reflexivity|].
  assert (He : JS.includes (Player.agents_captured (player g)) (Encounter.id e)
               = true) by (apply includes_In, H; left; reflexivity).
  rewrite He; simpl. apply IH; intros e' He'; apply H; right; exact He'.
Qed.

(** C6. Once every template of the current zone is among the captured ids,
    [triggerEncounter] answers [null] whatever id and draw it is given, and
    the engine is as before: no event was emitted. It is a plain result of
    the call. *)
Theorem triggerEncounter_exhausted :
  forall (g : GameLoop) (zone : Zone.t) (encounterId : option string)
         (random : Draw),
    getCurrentZone g = Some zone ->
    (forall e, In e (Zone.encounters zone) ->
               In (Encounter.id e) (Player.agents_captured (player g))) ->
    triggerEncounter encounterId random g = (g, None).
Proof.
  intros g zone encounterId random Hzone Hall.
  unfold triggerEncounter; rewrite Hzone, (eligible_exhausted zone g Hall).
  reflexivity.
Qed.

Lemma triggerEncounter_exhausted_witness :
  exists zone : Zone.t,
    getCurrentZone cleared = Some zone
    /\ map Encounter.id (Zone.encounters zone)
       = ["paradox-daemon"; "stack-spirit"; "lucidia-sentinel"]
    /\ Player.agents_captured (player cleared)
       = ["paradox-daemon"; "stack-spirit"; "lucidia-sentinel"]
    /\ triggerEncounter (Some "stack-spirit") draw_half cleared = (cleared, None).
Proof.
  eexists. split; [reflexivity|]. split; [reflexivity|]. split; [reflexivity|].
  apply (triggerEncounter_exhausted cleared _ (Some "stack-spirit") draw_half
           eq_refl).
  intros e He; simpl in He.
  destruct He as [<-|[<-|[<-|[]]]]; vm_compute; auto.
Defined.

Lemma draw_bounds (random : Draw) : (0 <= dval random < 1)%Q.
Proof.
  destruct random as [d Hd]; simpl.
  apply andb_true_iff in Hd; destruct Hd as [H0 H1].
  apply Qle_bool_iff in H0. apply negb_true_iff, Qle_bool_false in H1.
  split; assumption.
Qed.

(** [Math.floor(Math.random() * n)] is the index [k] with
    [k <= draw * n < k + 1], and it is below [n]. *)
Lemma random_index (random : Draw) (n : nat) :
  (0 < n)%nat ->
  let k := JS.floor_index (dval random * inject_Z (Z.of_nat n)) in
  (k < n)%nat
  /\ (inject_Z (Z.of_nat k) <= dval random * inject_Z (Z.of_nat n)
      < inject_Z (Z.of_nat k) + 1)%Q.
Proof.
  intros Hn k.
  destruct (draw_bounds random) as [H0 H1].
  set (q := (dval random * inject_Z (Z.of_nat n))%Q) in *.
  assert (Hnpos : (0 < inject_Z (Z.of_nat n))%Q).
  { change 0%Q with (inject_Z 0). rewrite <- Zlt_Qlt; lia. }
  assert (Hq0 : (0 <= q)%Q) by (apply Qmult_le_0_compat; [exact H0|lra]).
  assert (Hqn : (q < inject_Z (Z.of_nat n))%Q).
  { unfold q.
    setoid_replace (inject_Z (Z.of_nat n)) with (1 * inject_Z (Z.of_nat n))%Q
      at 2 by ring.
    apply Qmult_lt_compat_r; assumption. }
  assert (Hf0 : (0 <= Qfloor q)%Z).
  { change 0%Z with (Qfloor 0). apply Qfloor_resp_le; exact Hq0. }
  assert (Hfle : (inject_Z (Qfloor q) <= q)%Q) by apply Qfloor_le.
  assert (Hflt : (q < inject_Z (Qfloor q + 1))%Q) by apply Qlt_floor.
  assert (Hfn : (Qfloor q < Z.of_nat n)%Z).
  { rewrite Zlt_Qlt. lra. }
  assert (Hk : Z.of_nat k = Qfloor q).
  { unfold k, JS.floor_index; fold q. apply Z2Nat.id; exact Hf0. }
  split; [lia|].
  rewrite Hk. rewrite inject_Z_plus in Hflt. split; [exact Hfle|exact Hflt].
Qed.

Lemma random_index_lt (random : Draw) (n : nat) :
  (0 < n)%nat ->
  (JS.floor_index (dval random * inject_Z (Z.of_nat n)) < n)%nat.
Proof. intros Hn; apply (random_index random n Hn). Qed.

Lemma truthy_nonempty (i : string) : i <> "" -> truthy (Some i) = Some i.
Proof. destruct i; [congruence|reflexivity]. Qed.

(** A draw of one half picks exactly in a pool of three: 1/2 and 3/2 are
    binary64 values. *)
Lemma exact_pick_half_3 : exact_pick draw_half 3.
Proof.
  split.
  - exists 1%Z, (-1)%Z. split; [reflexivity|]. split; [reflexivity|].
    split; discriminate.
  - exists 3%Z, (-1)%Z. split; [reflexivity|]. split; [reflexivity|].
    split; discriminate.
Qed.

(** C7, as the code has it. With a non-empty pool of eligible encounters:
    a non-empty [encounterId] that some template of the zone's whole list
    has, captured or not, selects the first template with this id; a
    non-empty [encounterId] that no template has selects the first eligible
    one; no [encounterId], or the empty string, selects the eligible
    encounter at index [Math.floor(draw * n)], [n] being the size of the
    pool: for a draw whose product with [n] is computed without rounding,
    that is the index [k] with [k <= draw * n < k + 1]. The selected
    template is emitted in an [encounter] event and returned. *)
Theorem triggerEncounter_selection :
  forall (g : GameLoop) (zone : Zone.t) (first : Encounter.t)
         (rest : list Encounter.t) (encounterId : option string)
         (random : Draw),
    getCurrentZone g = Some zone ->
    eligibleEncounters zone g = first :: rest ->
    (forall i t,
        encounterId = Some i -> i <> "" ->
        In t (Zone.encounters zone) -> Encounter.id t = i ->
        exists e : Encounter.t,
          find (fun t' => Encounter.id t' =? i) (Zone.encounters zone) = Some e
          /\ In e (Zone.encounters zone)
          /\ Encounter.id e = i
          /\ triggerEncounter encounterId random g
             = (emit (encounter e) g, Some e))
    /\ (forall i,
          encounterId = Some i -> i <> "" ->
          (forall t, In t (Zone.encounters zone) -> Encounter.id t <> i) ->
          triggerEncounter encounterId random g
          = (emit (encounter first) g, Some first))
    /\ (encounterId = None \/ encounterId = Some "" ->
        exact_pick random (length (first :: rest)) ->
        let n := length (first :: rest) in
        exists (k : nat) (e : Encounter.t),
          k = JS.floor_index (dval random * inject_Z (Z.of_nat n))
          /\ (inject_Z (Z.of_nat k) <= dval random * inject_Z (Z.of_nat n)
              < inject_Z (Z.of_nat k) + 1)%Q
          /\ nth_error (first :: rest) k = Some e
          /\ triggerEncounter encounterId random g
             = (emit (encounter e) g, Some e)).
Proof.
  intros g zone first rest encounterId random Hzone Hpool.
  split; [|split].
  - intros i t -> Hi Ht Hid.
    destruct (find (fun t' => Encounter.id t' =? i) (Zone.encounters zone))
      as [e|] eqn:Hfind.
    + destruct (find_some _ _ Hfind) as [He Heq].
      apply String.eqb_eq in Heq.
      exists e. repeat (split; [first [reflexivity | assumption]|]).
      unfold triggerEncounter.
      rewrite Hzone, Hpool, (truthy_nonempty i Hi), Hfind; reflexivity.
    + pose proof (find_none _ _ Hfind t Ht) as Hno; simpl in Hno.
      apply String.eqb_neq in Hno. contradiction.
  - intros i -> Hi Hnone.
    destruct (find (fun t' => Encounter.id t' =? i) (Zone.encounters zone))
      as [e|] eqn:Hfind.
    + destruct (find_some _ _ Hfind) as [He Heq].
      apply String.eqb_eq in Heq. exfalso; exact (Hnone e He Heq).
    + unfold triggerEncounter.
      rewrite Hzone, Hpool, (truthy_nonempty i Hi), Hfind; reflexivity.
  - intros Hid _ n.
    assert (Hfalsy : truthy encounterId = None)
      by (destruct Hid as [->| ->]; reflexivity).
    assert (Hn : (0 < n)%nat) by (unfold n; simpl; lia).
    destruct (random_index random n Hn) as [Hlt Hbounds].
    set (k := JS.floor_index (dval random * inject_Z (Z.of_nat n))) in *.
    destruct (nth_error (first :: rest) k) as [e|] eqn:Hnth.
    + exists k, e. split; [reflexivity|]. split; [exact Hbounds|].
      split; [exact Hnth|].
      unfold triggerEncounter. rewrite Hzone, Hpool, Hfalsy.
      fold n; fold k. rewrite Hnth; reflexivity.
    + apply nth_error_None in Hnth. unfold n in Hlt. lia.
Qed.

Lemma triggerEncounter_selection_witness :
  let g := fst (captureAgent (wild "paradox-daemon" 1 10) draw_zero
                  (constructor "Ada")) in
  let g0 := constructor "Ada" in
  exists zone first rest t e,
    getCurrentZone g = Some zone
    /\ eligibleEncounters zone g = first :: rest
    /\ Encounter.id first = "stack-spirit"
    /\ In t (Zone.encounters zone)
    /\ Encounter.id t = "paradox-daemon"
    /\ In "paradox-daemon" (Player.agents_captured (player g))
    /\ Encounter.id e = "paradox-daemon"
    /\ triggerEncounter (Some "paradox-daemon") draw_half g
       = (emit (encounter e) g, Some e)
    /\ exact_pick draw_half 3
    /\ exists e' : Encounter.t,
         nth_error (Zone.encounters zone) 1 = Some e'
         /\ triggerEncounter None draw_half g0
            = (emit (encounter e') g0, Some e').
Proof.
  intros g g0.
  assert (Hne : "paradox-daemon" <> "") by discriminate.
  destruct (proj1 (triggerEncounter_selection g _ _ _ (Some "paradox-daemon")
                     draw_half eq_refl eq_refl)
              "paradox-daemon" _ eq_refl Hne (or_introl eq_refl) eq_refl)
    as (e & _ & _ & Hid & Hsel).
  destruct (proj2 (proj2 (triggerEncounter_selection g0 _ _ _ None draw_half
                            eq_refl eq_refl))
              (or_introl eq_refl) exact_pick_half_3)
    as (k & e' & Hk & _ & Hnth & Hsel').
  vm_compute in Hk. subst k.
  do 4 eexists. exists e.
  split; [reflexivity|]. split; [reflexivity|]. split; [reflexivity|].
  split; [left; reflexivity|]. split; [reflexivity|].
  split; [left; reflexivity|]. split; [exact Hid|]. split; [exact Hsel|].
  split; [exact exact_pick_half_3|].
  exists e'. split; [exact Hnth|exact Hsel'].
Defined.

(** C7, as stated, fails on the empty string: it is an id that is supplied
    and that no template of the zone has, yet the encounter selected is not
    the first eligible one ("paradox-daemon") but the one the draw picks
    ("stack-spirit" for a draw of one half). *)
Lemma triggerEncounter_empty_id_counterexample :
  ~ (forall (zone : Zone.t) (first : Encounter.t) (rest : list Encounter.t),
       getCurrentZone (constructor "Ada") = Some zone ->
       eligibleEncounters zone (constructor "Ada") = first :: rest ->
       find (fun t => Encounter.id t =? "") (Zone.encounters zone) = None ->
       snd (triggerEncounter (Some "") draw_half (constructor "Ada"))
       = Some first).
Proof.
  intros H.
  specialize (H _ _ _ eq_refl eq_refl eq_refl).
  vm_compute in H. discriminate H.
Qed.

(** ** Listeners *)

Lemma keeps_true (ks : list nat) (l : EventListener) :
  keeps ks l = true <-> ~ In (lid l) ks.
Proof.
  unfold keeps; rewrite negb_true_iff; split.
  - intros H Hin.
    assert (E : existsb (Nat.eqb (lid l)) ks = true)
      by (apply existsb_exists; exists (lid l); split;
          [exact Hin|apply Nat.eqb_refl]).
    congruence.
  - intros H. destruct (existsb (Nat.eqb (lid l)) ks) eqn:E; [|reflexivity].
    apply existsb_exists in E; destruct E as (k & Hk & Ek).
    apply Nat.eqb_eq in Ek; subst k. contradiction.
Qed.

Lemma unsubscribed_In (event : GameEvent) (ls : list EventListener) (k : nat) :
  In k (unsubscribed event ls)
  <-> exists l, In l ls /\ In (Unsubscribe k) (react l event).
Proof.
  unfold unsubscribed; rewrite in_flat_map; split.
  - intros (l & Hl & Hk). apply in_map_iff in Hk.
    destruct Hk as ([k'] & <- & Hc). exists l; split; assumption.
  - intros (l & Hl & Hc). exists l; split; [exact Hl|].
    apply in_map_iff. exists (Unsubscribe k); split; [reflexivity|exact Hc].
Qed.

Lemma notify_app (event : GameEvent) (ls1 ls2 : list EventListener) :
  notify event (ls1 ++ ls2) = notify event ls1 ++ notify event ls2.
Proof. apply map_app. Qed.

(** C8. A listener that calls its own unsubscribe function while it is
    notified stops nothing: [emit] completes (it is a total function with no
    failing branch), every listener of the list held at the call is invoked
    once and in registration order, those registered before the
    unsubscribing one and those after it alike; the listener itself is gone
    from the list afterwards and every listener nobody unsubscribed is still
    there; the player is untouched. *)
Theorem unsubscribe_during_emit :
  forall (g : GameLoop) (event : GameEvent) (before : list EventListener)
         (l : EventListener) (after : list EventListener),
    listeners g = before ++ l :: after ->
    In (Unsubscribe (lid l)) (react l event) ->
    let g' := emit event g in
    delivered g'
    = delivered g ++ notify event before ++ (lid l, event) :: notify event after
    /\ (forall m, In m (listeners g') -> lid m <> lid l)
    /\ (forall m, In m (listeners g) ->
                  ~ In (lid m) (unsubscribed event (listeners g)) ->
                  In m (listeners g'))
    /\ player g' = player g
    /\ emitted g' = emitted g ++ [event].
Proof.
  intros g event before l after Hls Hself g'; subst g'.
  rewrite emit_eq; simpl.
  assert (Hgone : In (lid l) (unsubscribed event (listeners g))).
  { apply unsubscribed_In. exists l; split; [|exact Hself].
    rewrite Hls. apply in_or_app; right; left; reflexivity. }
  split; [rewrite Hls, notify_app; reflexivity|].
  split.
  - intros m Hm Heq. apply filter_In in Hm; destruct Hm as [_ Hk].
    apply keeps_true in Hk. apply Hk. rewrite Heq; exact Hgone.
  - split; [|split; reflexivity].
    intros m Hm Hnot. apply filter_In; split; [exact Hm|].
    apply keeps_true; exact Hnot.
Qed.

Lemma unsubscribe_during_emit_witness :
  let g := on (observer 2) (on (once 1) (on (observer 0) (constructor "Ada"))) in
  let event := level_up (JS.Fin 2) in
  listeners g = [observer 0] ++ once 1 :: [observer 2]
  /\ In (Unsubscribe (lid (once 1))) (react (once 1) event)
  /\ delivered (emit event g) = [(0, event); (1, event); (2, event)]%nat
  /\ listeners (emit event g) = [observer 0; observer 2].
Proof.
  intros g event.
  assert (Hls : listeners g = [observer 0] ++ once 1 :: [observer 2])
    by reflexivity.
  assert (Hself : In (Unsubscribe (lid (once 1))) (react (once 1) event))
    by (left; reflexivity).
  split; [exact Hls|]. split; [exact Hself|].
  split; [|reflexivity].
  exact (proj1 (unsubscribe_during_emit g event _ _ _ Hls Hself)).
Defined.

(** ** A subscriber that stays *)

Lemma received_notify (k : nat) (event : GameEvent) (ls : list EventListener) :
  map snd (filter (fun d => (fst d =? k)%nat) (notify event ls))
  = repeat event (registrations k ls).
Proof.
  unfold registrations, notify.
  induction ls as [|l ls IH]; simpl; [reflexivity|].
  destruct (lid l =? k)%nat; simpl; rewrite IH; reflexivity.
Qed.

Lemma received_emit (k : nat) (event : GameEvent) (g : GameLoop) :
  received k (emit event g)
  = received k g ++ repeat event (registrations k (listeners g)).
Proof.
  unfold received. rewrite emit_delivered, filter_app, map_app, received_notify.
  reflexivity.
Qed.

Lemma registrations_kept (k : nat) (ks : list nat) (ls : list EventListener) :
  ~ In k ks ->
  registrations k (filter (keeps ks) ls) = registrations k ls.
Proof.
  intros Hk; unfold registrations. rewrite filter_twice. f_equal.
  apply filter_ext; intros a.
  destruct (lid a =? k)%nat eqn:E; [|apply andb_false_r].
  apply Nat.eqb_eq in E. rewrite andb_true_r. apply keeps_true.
  rewrite E; exact Hk.
Qed.

Lemma never_unsubscribed_not_In (k : nat) (event : GameEvent)
    (ls : list EventListener) :
  never_unsubscribed k ls -> ~ In k (unsubscribed event ls).
Proof.
  intros Hnever Hin. apply unsubscribed_In in Hin.
  destruct Hin as (l & Hl & Hc). exact (Hnever l event Hl Hc).
Qed.

(** The subscriber [k] is registered once and nobody unsubscribes it: it
    gets the event, and the same holds of the engine after the emission. *)
Lemma emit_subscriber (k : nat) (event : GameEvent) (g : GameLoop) :
  registrations k (listeners g) = 1%nat ->
  never_unsubscribed k (listeners g) ->
  received k (emit event g) = received k g ++ [event]
  /\ registrations k (listeners (emit event g)) = 1%nat
  /\ never_unsubscribed k (listeners (emit event g)).
Proof.
  intros Hone Hnever.
  split; [rewrite received_emit, Hone; reflexivity|].
  rewrite emit_listeners. split.
  - rewrite registrations_kept; [exact Hone|].
    apply never_unsubscribed_not_In; exact Hnever.
  - intros l ev Hl. apply filter_In in Hl. apply Hnever, Hl.
Qed.

Lemma enterZone_true (zoneId : string) (g : GameLoop) :
  snd (enterZone zoneId g) = true ->
  exists zone : Zone.t,
    getZone zoneId = Some zone
    /\ fst (enterZone zoneId g)
       = emit (zone_enter zone)
           (set_player (set_current_zone zoneId (player g)) g).
Proof.
  unfold enterZone, getZone.
  destruct (find _ ZONES) as [zone|]; [|discriminate].
  destruct (JS.lt _ _); simpl; [discriminate|].
  intros _; exists zone; split; reflexivity.
Qed.

Lemma triggerEncounter_some (encounterId : option string) (random : Draw)
    (g : GameLoop) (t : Encounter.t) :
  snd (triggerEncounter encounterId random g) = Some t ->
  fst (triggerEncounter encounterId random g) = emit (encounter t) g.
Proof.
  unfold triggerEncounter.
  destruct (getCurrentZone g) as [zone|]; [|discriminate].
  destruct (eligibleEncounters zone g) as [|first rest]; [discriminate|].
  match goal with
  | |- context [match ?sel with Some _ => _ | None => _ end] =>
      destruct sel as [e|]
  end; simpl; [|discriminate].
  intros H; injection H as ->; reflexivity.
Qed.

Lemma captureAgent_true (e : Encounter.t) (random : Draw) (g : GameLoop) :
  snd (captureAgent e random g) = true ->
  fst (captureAgent e random g)
  = gainXP (JS.ToNumber (Encounter.xp_reward e))
      (emit (capture (captured_of e))
         (set_player (push_captured e (captured_of e) (player g)) g)).
Proof.
  unfold captureAgent. destruct (JS.gt _ _); simpl; [discriminate|reflexivity].
Qed.

(** [gainXP] emits [level_up] if the threshold is reached, and nothing else. *)
Lemma gainXP_eq (amount : JS.num) (g : GameLoop) :
  emitted (gainXP amount g)
  = emitted g ++ level_up_if_reached (player g) amount
  /\ forall k : nat,
       registrations k (listeners g) = 1%nat ->
       never_unsubscribed k (listeners g) ->
       received k (gainXP amount g)
       = received k g ++ level_up_if_reached (player g) amount.
Proof.
  unfold gainXP, level_up_if_reached.
  destruct (JS.ge _ _).
  - split; [rewrite emit_emitted; reflexivity|].
    intros k Hone Hnever.
    apply (emit_subscriber k _
             (set_player
                (set_xp_level
                   (JS.sub (JS.add (Player.xp (player g)) amount)
                      (JS.mul (Player.level (player g)) (JS.Fin 100)))
                   (JS.add (Player.level (player g)) (JS.Fin 1)) (player g)) g)
             Hone Hnever).
  - split; [simpl; rewrite app_nil_r; reflexivity|].
    intros k _ _. rewrite app_nil_r; reflexivity.
Qed.

(** ** The catalog: lookups *)

Lemma filter_all_In {A : Type} (f : A -> bool) (l : list A) :
  (forall a, In a l -> f a = true) -> filter f l = l.
Proof.
  induction l as [|a l IH]; intros H; simpl; [reflexivity|].
  rewrite (H a (or_introl eq_refl)), IH; [reflexivity|].
  intros b Hb; apply H; right; exact Hb.
Qed.

Lemma filter_none_In {A : Type} (f : A -> bool) (l : list A) :
  (forall a, In a l -> f a = false) -> filter f l = [].
Proof.
  induction l as [|a l IH]; intros H; simpl; [reflexivity|].
  rewrite (H a (or_introl eq_refl)). apply IH.
  intros b Hb; apply H; right; exact Hb.
Qed.

Lemma le_finite (a : JS.num) (l : Q) :
  JS.le a (JS.Fin l) = true <-> exists r : Q, a = JS.Fin r /\ (r <= l)%Q.
Proof.
  destruct a as [r|]; simpl; split.
  - intros H; exists r; split; [reflexivity|apply Qle_bool_iff; exact H].
  - intros (r' & E & H); injection E as <-. apply Qle_bool_iff; exact H.
  - discriminate.
  - intros (r' & E & _); discriminate.
Qed.

(** X1. The ids of the catalog are pairwise distinct, so [getZone] is a
    lookup by key: the id of a zone of [ZONES] gives back that very zone, a
    zone found has the id asked for, and the answer is [undefined] exactly
    for the ids no zone of the catalog has. *)
Theorem getZone_lookup :
  (forall zone : Zone.t, In zone ZONES -> getZone (Zone.id zone) = Some zone)
  /\ (forall (id : string) (zone : Zone.t),
        getZone id = Some zone -> In zone ZONES /\ Zone.id zone = id)
  /\ (forall id : string,
        getZone id = None <-> ~ In id (map Zone.id ZONES)).
Proof.
  split; [|split].
  - intros zone H.
    repeat (destruct H as [H|H]; [subst zone; reflexivity|]). destruct H.
  - intros id zone H. unfold getZone in H.
    destruct (find_some _ _ H) as [Hin Heq].
    apply String.eqb_eq in Heq. split; assumption.
  - intros id; unfold getZone; split.
    + intros Hnone Hin. apply in_map_iff in Hin.
      destruct Hin as (zone & Hid & Hzone).
      pose proof (find_none _ _ Hnone zone Hzone) as Hneq; simpl in Hneq.
      apply String.eqb_neq in Hneq. contradiction.
    + intros Hnot.
      destruct (find (fun z => Zone.id z =? id) ZONES) as [zone|] eqn:Hfind;
        [|reflexivity].
      destruct (find_some _ _ Hfind) as [Hin Heq].
      apply String.eqb_eq in Heq. exfalso; apply Hnot.
      apply in_map_iff. exists zone; split; assumption.
Qed.

Lemma getZone_lookup_witness :
  exists zone : Zone.t,
    In zone ZONES
    /\ Zone.id zone = "archive-sanctum"
    /\ getZone "archive-sanctum" = Some zone
    /\ ~ In "the-void" (map Zone.id ZONES)
    /\ getZone "the-void" = None.
Proof.
  assert (Hvoid : ~ In "the-void" (map Zone.id ZONES)).
  { simpl. intros H.
    repeat (destruct H as [H|H]; [discriminate H|]). exact H. }
  eexists.
  assert (Hin : In (nth 4 ZONES (zone "" "" "" "" "" 0 [] "")) ZONES)
    by (do 4 right; left; reflexivity).
  split; [exact Hin|]. split; [reflexivity|].
  split; [exact (proj1 getZone_lookup _ Hin)|].
  split; [exact Hvoid|].
  exact (proj2 (proj2 (proj2 getZone_lookup) "the-void") Hvoid).
Defined.

(** X2. [getZonesForLevel] returns the zones of the catalog whose
    [requiredLevel] is at most the level given, in catalog order; it grows
    with the level, is empty below level 1 and for [NaN], and is the whole
    catalog from level 20 on. *)
Theorem getZonesForLevel_by_level :
  (forall (l : Q) (zone : Zone.t),
     In zone (getZonesForLevel (JS.Fin l))
     <-> In zone ZONES
         /\ exists r : Q, Zone.requiredLevel zone = JS.Fin r /\ (r <= l)%Q)
  /\ (forall (l1 l2 : Q) (zone : Zone.t),
        (l1 <= l2)%Q ->
        In zone (getZonesForLevel (JS.Fin l1)) ->
        In zone (getZonesForLevel (JS.Fin l2)))
  /\ (forall l : Q, (l < 1)%Q -> getZonesForLevel (JS.Fin l) = [])
  /\ (forall l : Q, (20 <= l)%Q -> getZonesForLevel (JS.Fin l) = ZONES)
  /\ getZonesForLevel JS.NaN = [].
Proof.
  assert (Hmem : forall (l : Q) (zone : Zone.t),
            In zone (getZonesForLevel (JS.Fin l))
            <-> In zone ZONES
                /\ exists r : Q, Zone.requiredLevel zone = JS.Fin r /\ (r <= l)%Q).
  { intros l zone. unfold getZonesForLevel.
    rewrite filter_In, le_finite. reflexivity. }
  split; [exact Hmem|]. split; [|split; [|split]].
  - intros l1 l2 zone Hle H. apply Hmem in H. apply Hmem.
    destruct H as (Hin & r & Hr & Hrl). split; [exact Hin|].
    exists r; split; [exact Hr|lra].
  - intros l Hl. unfold getZonesForLevel. apply filter_none_In.
    intros zone H.
    repeat (destruct H as [H|H];
            [subst zone; simpl; apply Qle_bool_false;
             unfold inject_Z; lra|]).
    destruct H.
  - intros l Hl. unfold getZonesForLevel. apply filter_all_In.
    intros zone H.
    repeat (destruct H as [H|H];
            [subst zone; simpl; apply Qle_bool_iff;
             unfold inject_Z; lra|]).
    destruct H.
  - reflexivity.
Qed.

Lemma getZonesForLevel_by_level_witness :
  (5 <= 8)%Q
  /\ map Zone.id (getZonesForLevel (JS.Fin 5))
     = ["recursion-depths"; "gateway-nexus"; "compute-forge"]
  /\ forall zone : Zone.t,
       In zone (getZonesForLevel (JS.Fin 5)) ->
       In zone (getZonesForLevel (JS.Fin 8)).
Proof.
  assert (H : (5 <= 8)%Q) by discriminate.
  split; [exact H|]. split; [reflexivity|].
  intros zone Hz.
  exact (proj1 (proj2 getZonesForLevel_by_level) 5 8 zone H Hz).
Defined.

(** ** Entering a zone: what the answer tells *)

Lemma getCurrentZone_set (zoneId : string) (g : GameLoop) (event : GameEvent) :
  getCurrentZone
    (emit event (set_player (set_current_zone zoneId (player g)) g))
  = getZone zoneId.
Proof. unfold getCurrentZone; rewrite emit_player; reflexivity. Qed.

(** ** What any sequence of calls keeps *)

Lemma gainXP_player (amount : JS.num) (g : GameLoop) :
  exists X L : JS.num, player (gainXP amount g) = set_xp_level X L (player g).
Proof.
  unfold gainXP. destruct (JS.ge _ _).
  - do 2 eexists. rewrite emit_player; reflexivity.
  - do 2 eexists. reflexivity.
Qed.

Lemma gainXP_engine (amount : JS.num) (g : GameLoop) :
  running (gainXP amount g) = running g
  /\ tickRate (gainXP amount g) = tickRate g.
Proof.
  unfold gainXP. destruct (JS.ge _ _); rewrite ?emit_eq; split; reflexivity.
Qed.

(** The player after one call: untouched, moved to a zone of the catalog, or
    one capture richer (with some xp and level). *)
Lemma step_player (g : GameLoop) (op : Op) :
  player (step g op) = player g
  \/ (exists (zoneId : string) (zone : Zone.t),
        getZone zoneId = Some zone
        /\ player (step g op) = set_current_zone zoneId (player g))
  \/ (exists (e : Encounter.t) (X L : JS.num),
        player (step g op)
        = set_xp_level X L (push_captured e (captured_of e) (player g))).
Proof.
  destruct op as [l|k|zoneId|encounterId random|e random]; simpl.
  - left; reflexivity.
  - left; reflexivity.
  - destruct (snd (enterZone zoneId g)) eqn:Hok.
    + right; left.
      destruct (enterZone_true zoneId g Hok) as (zone & Hzone & E).
      exists zoneId, zone. split; [exact Hzone|].
      rewrite E, emit_player; reflexivity.
    + left. unfold enterZone in *.
      destruct (find _ ZONES) as [zone|]; [|reflexivity].
      destruct (JS.lt _ _); [reflexivity|discriminate Hok].
  - left; apply triggerEncounter_player.
  - destruct (snd (captureAgent e random g)) eqn:Hok.
    + right; right. rewrite (captureAgent_true e random g Hok).
      destruct (gainXP_player (JS.ToNumber (Encounter.xp_reward e))
                  (emit (capture (captured_of e))
                     (set_player (push_captured e (captured_of e) (player g)) g)))
        as (X & L & E).
      exists e, X, L. rewrite E, emit_player; reflexivity.
    + left. unfold captureAgent in *.
      destruct (JS.gt _ _); [reflexivity|discriminate Hok].
Qed.

Lemma run_ops_app (ops1 ops2 : list Op) (g : GameLoop) :
  run_ops (ops1 ++ ops2) g = run_ops ops2 (run_ops ops1 g).
Proof. apply fold_left_app. Qed.

(** An invariant of the player kept by every call is kept by every sequence
    of calls. *)
Lemma run_ops_invariant (P : GameLoop -> Prop) :
  (forall g op, P g -> P (step g op)) ->
  forall ops g, P g -> P (run_ops ops g).
Proof.
  intros Hstep ops; induction ops as [|op ops IH]; intros g Hg; simpl;
    [exact Hg|].
  apply IH, Hstep, Hg.
Qed.

Lemma push_captured_first_six (e : Encounter.t) (p : PlayerState) :
  map CapturedAgent.id (Player.party p) = firstn 6 (Player.agents_captured p) ->
  map CapturedAgent.id (Player.party (push_captured e (captured_of e) p))
  = firstn 6 (Player.agents_captured (push_captured e (captured_of e) p)).
Proof.
  intros H; unfold push_captured; cbn [Player.party Player.agents_captured].
  assert (Hlen : length (Player.party p)
                 = Nat.min 6 (length (Player.agents_captured p))).
  { rewrite <- (length_map CapturedAgent.id), H. apply length_firstn. }
  destruct (length (Player.party p) <? 6)%nat eqn:E.
  - apply Nat.ltb_lt in E.
    assert (Hshort : (length (Player.agents_captured p) < 6)%nat) by lia.
    rewrite map_app, H.
    change (map CapturedAgent.id [captured_of e]) with [Encounter.id e].
    rewrite !firstn_all2; [reflexivity| |lia].
    rewrite length_app; simpl; lia.
  - apply Nat.ltb_ge in E.
    rewrite firstn_app.
    replace (6 - length (Player.agents_captured p))%nat with 0%nat by lia.
    rewrite firstn_O, app_nil_r. exact H.
Qed.

(** X4. The party is the first six captures: after any sequence of calls
    on a new engine, the ids of the party members are, in order, the first
    six ids of [agents_captured] (all of them while there are fewer); later
    captures are counted but never join the party, and nothing ever leaves
    it. *)
Theorem party_is_first_six_captures :
  (forall (g : GameLoop) (ops : list Op),
     map CapturedAgent.id (Player.party (player g))
     = firstn 6 (Player.agents_captured (player g)) ->
     map CapturedAgent.id (Player.party (player (run_ops ops g)))
     = firstn 6 (Player.agents_captured (player (run_ops ops g))))
  /\ (forall (playerName : string) (ops : list Op),
        let p := player (run_ops ops (constructor playerName)) in
        map CapturedAgent.id (Player.party p)
        = firstn 6 (Player.agents_captured p)).
Proof.
  assert (Hkeep : forall (g : GameLoop) (ops : list Op),
            map CapturedAgent.id (Player.party (player g))
            = firstn 6 (Player.agents_captured (player g)) ->
            map CapturedAgent.id (Player.party (player (run_ops ops g)))
            = firstn 6 (Player.agents_captured (player (run_ops ops g)))).
  { intros g ops.
    apply (run_ops_invariant
             (fun g => map CapturedAgent.id (Player.party (player g))
                       = firstn 6 (Player.agents_captured (player g)))).
    clear g ops; intros g op H.
    destruct (step_player g op)
      as [E|[(zoneId & zone & _ & E)|(e & X & L & E)]]; rewrite E; simpl.
    - exact H.
    - exact H.
    - apply (push_captured_first_six e (player g) H). }
  split; [exact Hkeep|].
  intros playerName ops p; subst p. apply Hkeep; reflexivity.
Qed.

Lemma party_is_first_six_captures_witness :
  map CapturedAgent.id (Player.party (player full_party))
  = firstn 6 (Player.agents_captured (player full_party))
  /\ (let p := player (run_ops [OpCaptureAgent (wild "g" 1 10) draw_zero;
                                OpCaptureAgent (wild "h" 1 10) draw_zero]
                         full_party) in
      Player.agents_captured p = ["a"; "b"; "c"; "d"; "e"; "f"; "g"; "h"]
      /\ map CapturedAgent.id (Player.party p)
         = firstn 6 (Player.agents_captured p)).
Proof.
  assert (H : map CapturedAgent.id (Player.party (player full_party))
              = firstn 6 (Player.agents_captured (player full_party)))
    by reflexivity.
  split; [exact H|]. split; [reflexivity|].
  exact (proj1 party_is_first_six_captures full_party _ H).
Defined.

(** X5. The current zone always resolves: [enterZone] writes
    [current_zone] only after it found the id in the catalog, so after any
    sequence of calls on a new engine [getCurrentZone] returns a zone of
    [ZONES], and [triggerEncounter] never takes its "no zone" exit. *)
Theorem current_zone_always_resolves :
  (forall (g : GameLoop) (ops : list Op),
     getCurrentZone g <> None -> getCurrentZone (run_ops ops g) <> None)
  /\ (forall (playerName : string) (ops : list Op),
        exists zone : Zone.t,
          getCurrentZone (run_ops ops (constructor playerName)) = Some zone
          /\ In zone ZONES
          /\ Zone.id zone
             = Player.current_zone
                 (player (run_ops ops (constructor playerName)))).
Proof.
  assert (Hkeep : forall (g : GameLoop) (ops : list Op),
            getCurrentZone g <> None -> getCurrentZone (run_ops ops g) <> None).
  { intros g ops.
    apply (run_ops_invariant (fun g => getCurrentZone g <> None)).
    clear g ops; intros g op H. unfold getCurrentZone in *.
    destruct (step_player g op)
      as [E|[(zoneId & zone & Hzone & E)|(e & X & L & E)]]; rewrite E;
      unfold set_current_zone, set_xp_level, push_captured;
      cbn [Player.current_zone].
    - exact H.
    - unfold getZone in Hzone; rewrite Hzone; discriminate.
    - exact H. }
  split; [exact Hkeep|].
  intros playerName ops.
  destruct (getCurrentZone (run_ops ops (constructor playerName)))
    as [zone|] eqn:E.
  - exists zone. split; [reflexivity|].
    unfold getCurrentZone in E. destruct (find_some _ _ E) as [Hin Heq].
    apply String.eqb_eq in Heq. split; assumption.
  - exfalso. apply (Hkeep (constructor playerName) ops); [discriminate|exact E].
Qed.

Lemma current_zone_always_resolves_witness :
  getCurrentZone (constructor "Ada") <> None
  /\ getCurrentZone
       (run_ops [OpEnterZone "the-void"; OpEnterZone "vault-terminus";
                 OpEnterZone ""] (constructor "Ada")) <> None.
Proof.
  assert (H : getCurrentZone (constructor "Ada") <> None) by discriminate.
  split; [exact H|].
  exact (proj1 current_zone_always_resolves (constructor "Ada") _ H).
Defined.

(** ** The effect of one call, in full *)

Lemma gainXP_effect (amount : JS.num) (g : GameLoop) :
  player (gainXP amount g) = gain_player amount (player g)
  /\ emitted (gainXP amount g)
     = emitted g ++ level_up_if_reached (player g) amount.
Proof.
  unfold gainXP, gain_player, level_up_if_reached.
  destruct (JS.ge _ _).
  - rewrite emit_player, emit_emitted; split; reflexivity.
  - simpl; rewrite app_nil_r; split; reflexivity.
Qed.

Lemma enterZone_effect (zoneId : string) (g : GameLoop) :
  (snd (enterZone zoneId g) = false
   /\ player (fst (enterZone zoneId g)) = player g
   /\ emitted (fst (enterZone zoneId g)) = emitted g)
  \/ (exists zone : Zone.t,
        getZone zoneId = Some zone
        /\ snd (enterZone zoneId g) = true
        /\ player (fst (enterZone zoneId g))
           = set_current_zone zoneId (player g)
        /\ emitted (fst (enterZone zoneId g)) = emitted g ++ [zone_enter zone]).
Proof.
  destruct (snd (enterZone zoneId g)) eqn:Hok.
  - right. destruct (enterZone_true zoneId g Hok) as (zone & Hzone & E).
    exists zone. rewrite E, emit_player, emit_emitted. repeat split; assumption.
  - left. unfold enterZone in *.
    destruct (find _ ZONES) as [zone|]; [|repeat split].
    destruct (JS.lt _ _); [repeat split|discriminate Hok].
Qed.

Lemma triggerEncounter_emitted (encounterId : option string) (random : Draw)
    (g : GameLoop) :
  emitted (fst (triggerEncounter encounterId random g))
  = emitted g ++ encounter_if (snd (triggerEncounter encounterId random g)).
Proof.
  destruct (snd (triggerEncounter encounterId random g)) as [t|] eqn:Hres.
  - rewrite (triggerEncounter_some encounterId random g t Hres), emit_emitted.
    reflexivity.
  - simpl; rewrite app_nil_r. unfold triggerEncounter in *.
    destruct (getCurrentZone g) as [zone|]; [|reflexivity].
    destruct (eligibleEncounters zone g) as [|first rest]; [reflexivity|].
    match goal with
    | |- context [match ?sel with Some _ => _ | None => _ end] =>
        destruct sel as [e|]
    end; [discriminate Hres|reflexivity].
Qed.

Lemma captureAgent_effect (e : Encounter.t) (random : Draw) (g : GameLoop) :
  (snd (captureAgent e random g) = false /\ fst (captureAgent e random g) = g)
  \/ (snd (captureAgent e random g) = true
      /\ player (fst (captureAgent e random g))
         = gain_player (JS.ToNumber (Encounter.xp_reward e))
             (push_captured e (captured_of e) (player g))
      /\ emitted (fst (captureAgent e random g))
         = emitted g
           ++ capture (captured_of e)
              :: level_up_if_reached (player g)
                   (JS.ToNumber (Encounter.xp_reward e))).
Proof.
  destruct (snd (captureAgent e random g)) eqn:Hok.
  - right. rewrite (captureAgent_true e random g Hok).
    destruct (gainXP_effect (JS.ToNumber (Encounter.xp_reward e))
                (emit (capture (captured_of e))
                   (set_player (push_captured e (captured_of e) (player g)) g)))
      as [Hp He].
    rewrite Hp, He, emit_player, emit_emitted; simpl.
    rewrite <- app_assoc. repeat split.
  - left. unfold captureAgent in *.
    destruct (JS.gt _ _); [split; reflexivity|discriminate Hok].
Qed.

Lemma step_engine (g : GameLoop) (op : Op) :
  running (step g op) = running g /\ tickRate (step g op) = tickRate g.
Proof.
  destruct op as [l|k|zoneId|encounterId random|e random]; simpl.
  - split; reflexivity.
  - split; reflexivity.
  - unfold enterZone. destruct (find _ ZONES) as [zone|]; [|split; reflexivity].
    destruct (JS.lt _ _); simpl; rewrite ?emit_eq; split; reflexivity.
  - unfold triggerEncounter.
    destruct (getCurrentZone g) as [zone|]; [|split; reflexivity].
    destruct (eligibleEncounters zone g) as [|first rest]; [split; reflexivity|].
    match goal with
    | |- context [match ?sel with Some _ => _ | None => _ end] =>
        destruct sel as [t|]
    end; simpl; rewrite ?emit_eq; split; reflexivity.
  - unfold captureAgent. destruct (JS.gt _ _); simpl; [split; reflexivity|].
    destruct (gainXP_engine (JS.ToNumber (Encounter.xp_reward e))
                (emit (capture (captured_of e))
                   (set_player (push_captured e (captured_of e) (player g)) g)))
      as [-> ->].
    rewrite emit_eq; split; reflexivity.
Qed.

(** X6. Captured ids are never forgotten: after any sequence of calls the
    former [agents_captured] is a prefix of the new one, so an id captured
    once is never again among the eligible encounters of any zone. *)
Theorem captured_ids_only_grow :
  forall (g : GameLoop) (ops : list Op),
    prefix_of (Player.agents_captured (player g))
      (Player.agents_captured (player (run_ops ops g)))
    /\ forall (zone : Zone.t) (e : Encounter.t),
         In e (eligibleEncounters zone (run_ops ops g)) ->
         ~ In (Encounter.id e) (Player.agents_captured (player g)).
Proof.
  intros g ops.
  assert (Hprefix : prefix_of (Player.agents_captured (player g))
                      (Player.agents_captured (player (run_ops ops g)))).
  { apply (run_ops_invariant
             (fun g' => prefix_of (Player.agents_captured (player g))
                          (Player.agents_captured (player g')))).
    - clear ops; intros g' op [suffix Hs].
      destruct (step_player g' op)
        as [E|[(zoneId & zone & _ & E)|(e & X & L & E)]]; rewrite E;
        unfold set_current_zone, set_xp_level, push_captured;
        cbn [Player.agents_captured].
      + exists suffix; exact Hs.
      + exists suffix; exact Hs.
      + exists (suffix ++ [Encounter.id e]). rewrite Hs, app_assoc; reflexivity.
    - exists []; rewrite app_nil_r; reflexivity. }
  split; [exact Hprefix|].
  intros zone e He Hcap.
  apply eligible_not_captured in He. destruct He as [_ Hnot].
  apply Hnot. destruct Hprefix as [suffix ->].
  apply in_or_app; left; exact Hcap.
Qed.

Lemma captured_ids_only_grow_witness :
  let g := fst (captureAgent routing_ghost draw_zero (constructor "Ada")) in
  let ops := [OpEnterZone "gateway-nexus";
              OpCaptureAgent (wild "alice-avatar" 1 10) draw_zero] in
  exists (zone : Zone.t) (e : Encounter.t),
    In e (eligibleEncounters zone (run_ops ops g))
    /\ Encounter.id e = "deadlock-wraith"
    /\ Player.agents_captured (player g) = ["routing-ghost"]
    /\ ~ In (Encounter.id e) (Player.agents_captured (player g)).
Proof.
  intros g ops.
  assert (Hz : exists zone, getCurrentZone (run_ops ops g) = Some zone)
    by (eexists; reflexivity).
  destruct Hz as [zone Hzone]. vm_compute in Hzone.
  injection Hzone as Hzone.
  exists zone, (enc "deadlock-wraith" "Deadlock Wraith" "gateway" hard
                  "Freezes all progress until the lock is broken.").
  assert (Hel : In (enc "deadlock-wraith" "Deadlock Wraith" "gateway" hard
                      "Freezes all progress until the lock is broken.")
                  (eligibleEncounters zone (run_ops ops g)))
    by (subst zone; left; reflexivity).
  split; [exact Hel|]. split; [reflexivity|]. split; [reflexivity|].
  exact (proj2 (captured_ids_only_grow g ops) zone _ Hel).
Defined.

(** ** Levels *)

Lemma level_ups_app (g g' : GameLoop) (new : list GameEvent) :
  emitted g' = emitted g ++ new ->
  level_ups g' = (level_ups g + length (filter is_level_up new))%nat.
Proof.
  unfold level_ups; intros ->. rewrite filter_app, length_app; reflexivity.
Qed.

(** One gain at a finite level: the level goes up by one exactly when a
    [level_up] event is emitted. *)
Lemma gain_level (amount : JS.num) (p : PlayerState) (L : Q) :
  Player.level p = JS.Fin L ->
  exists (L' : Q) (n : nat),
    Player.level (gain_player amount p) = JS.Fin L'
    /\ L' == L + inject_Z (Z.of_nat n)
    /\ length (filter is_level_up (level_up_if_reached p amount)) = n.
Proof.
  intros HL. unfold gain_player, level_up_if_reached.
  destruct (JS.ge _ _); simpl; rewrite HL; simpl.
  - exists (L + 1), 1%nat. split; [reflexivity|]. split; reflexivity.
  - exists L, 0%nat. split; [reflexivity|]. split; [ring|reflexivity].
Qed.

Lemma step_level (g : GameLoop) (op : Op) (L : Q) :
  Player.level (player g) = JS.Fin L ->
  exists (L' : Q) (n : nat),
    Player.level (player (step g op)) = JS.Fin L'
    /\ L' == L + inject_Z (Z.of_nat n)
    /\ level_ups (step g op) = (level_ups g + n)%nat.
Proof.
  intros HL.
  assert (Hsame : forall g' : GameLoop,
            player g' = player g -> level_ups g' = level_ups g ->
            exists (L' : Q) (n : nat),
              Player.level (player g') = JS.Fin L'
              /\ L' == L + inject_Z (Z.of_nat n)
              /\ level_ups g' = (level_ups g + n)%nat).
  { intros g' Hp Hl. exists L, 0%nat. rewrite Hp, Hl, HL.
    repeat split; [simpl; ring|lia]. }
  destruct op as [l|k|zoneId|encounterId random|e random]; cbn [step].
  - apply (Hsame (on l g)); reflexivity.
  - apply (Hsame (unsubscribe k g)); reflexivity.
  - destruct (enterZone_effect zoneId g)
      as [(_ & Hp & He)|(zone & _ & _ & Hp & He)].
    + apply Hsame; [exact Hp|]. unfold level_ups; rewrite He; reflexivity.
    + exists L, 0%nat. rewrite Hp, (level_ups_app g _ _ He).
      split; [exact HL|]. split; [simpl; ring|reflexivity].
  - exists L, 0%nat.
    rewrite triggerEncounter_player,
      (level_ups_app g _ _ (triggerEncounter_emitted encounterId random g)).
    split; [exact HL|]. split; [simpl; ring|].
    destruct (snd (triggerEncounter encounterId random g)); reflexivity.
  - destruct (captureAgent_effect e random g) as [(_ & E)|(_ & Hp & He)].
    + rewrite E. apply (Hsame g); reflexivity.
    + destruct (gain_level (JS.ToNumber (Encounter.xp_reward e))
                  (push_captured e (captured_of e) (player g)) L HL)
        as (L' & n & HL' & Heq & Hn).
      exists L', n. rewrite Hp, (level_ups_app g _ _ He).
      split; [exact HL'|]. split; [exact Heq|].
      simpl. f_equal. exact Hn.
Qed.

(** X7. The level and the [level_up] events agree: over any sequence of
    calls, a finite level rises by exactly the number of [level_up] events
    emitted meanwhile and never falls; on a new engine the level is always 1
    plus the number of [level_up] events emitted so far. *)
Theorem level_counts_level_ups :
  (forall (ops : list Op) (g : GameLoop) (L : Q),
     Player.level (player g) = JS.Fin L ->
     exists (L' : Q) (n : nat),
       Player.level (player (run_ops ops g)) = JS.Fin L'
       /\ L' == L + inject_Z (Z.of_nat n)
       /\ (L <= L')%Q
       /\ level_ups (run_ops ops g) = (level_ups g + n)%nat)
  /\ (forall (playerName : string) (ops : list Op),
        exists L' : Q,
          Player.level (player (run_ops ops (constructor playerName)))
          = JS.Fin L'
          /\ L' == 1 + inject_Z (Z.of_nat
                                   (level_ups
                                      (run_ops ops (constructor playerName))))).
Proof.
  assert (Hrun : forall (ops : list Op) (g : GameLoop) (L : Q),
            Player.level (player g) = JS.Fin L ->
            exists (L' : Q) (n : nat),
              Player.level (player (run_ops ops g)) = JS.Fin L'
              /\ L' == L + inject_Z (Z.of_nat n)
              /\ level_ups (run_ops ops g) = (level_ups g + n)%nat).
  { induction ops as [|op ops IH]; intros g L HL; simpl.
    - exists L, 0%nat. split; [exact HL|]. split; [simpl; ring|lia].
    - destruct (step_level g op L HL) as (L1 & n1 & HL1 & Heq1 & Hn1).
      destruct (IH (step g op) L1 HL1) as (L2 & n2 & HL2 & Heq2 & Hn2).
      exists L2, (n1 + n2)%nat. split; [exact HL2|]. split.
      + rewrite Heq2, Heq1, Nat2Z.inj_add, inject_Z_plus. ring.
      + rewrite Hn2, Hn1; lia. }
  split.
  - intros ops g L HL.
    destruct (Hrun ops g L HL) as (L' & n & HL' & Heq & Hn).
    exists L', n. repeat (split; [assumption|]). split; [|exact Hn].
    assert (H0 : (0 <= inject_Z (Z.of_nat n))%Q).
    { change 0%Q with (inject_Z 0). rewrite <- Zle_Qle. lia. }
    lra.
  - intros playerName ops.
    destruct (Hrun ops (constructor playerName) 1 eq_refl)
      as (L' & n & HL' & Heq & Hn).
    exists L'. split; [exact HL'|].
    rewrite Hn. exact Heq.
Qed.

Lemma level_counts_level_ups_witness :
  let g := run_ops sample_ops (constructor "Ada") in
  Player.level (player (constructor "Ada")) = JS.Fin 1
  /\ level_ups g = 1%nat
  /\ exists (L' : Q) (n : nat),
       Player.level (player g) = JS.Fin L'
       /\ L' == 1 + inject_Z (Z.of_nat n)
       /\ level_ups g = (level_ups (constructor "Ada") + n)%nat.
Proof.
  intros g. split; [reflexivity|]. split; [reflexivity|].
  destruct (proj1 level_counts_level_ups sample_ops (constructor "Ada") 1
              eq_refl) as (L' & n & HL' & Heq & _ & Hn).
  exists L', n. split; [exact HL'|]. split; [exact Heq|exact Hn].
Defined.

(** ** Encounters of the catalog *)

(** No encounter object of the catalog has a [level], an [xp_reward], an
    [agent_name] or [moves]. *)
Lemma catalog_encounter (zone : Zone.t) (e : Encounter.t) :
  In zone ZONES -> In e (Zone.encounters zone) ->
  Encounter.level e = None /\ Encounter.xp_reward e = None
  /\ Encounter.agent_name e = None /\ Encounter.moves e = None.
Proof.
  intros Hz He.
  repeat (destruct Hz as [Hz|Hz];
          [subst zone;
           repeat (destruct He as [He|He];
                   [subst e; repeat split|]);
           destruct He|]).
  destruct Hz.
Qed.

Lemma gain_player_NaN (amount : JS.num) (p : PlayerState) :
  Player.xp p = JS.NaN \/ amount = JS.NaN ->
  gain_player amount p = set_xp_level JS.NaN (Player.level p) p.
Proof.
  intros H. unfold gain_player.
  assert (E : JS.add (Player.xp p) amount = JS.NaN).
  { destruct H as [-> | ->]; [reflexivity|].
    destruct (Player.xp p); reflexivity. }
  rewrite E. destruct (Player.level p); reflexivity.
Qed.

Lemma step_frozen (g : GameLoop) (op : Op) :
  Player.xp (player g) = JS.NaN ->
  Player.xp (player (step g op)) = JS.NaN
  /\ Player.level (player (step g op)) = Player.level (player g)
  /\ level_ups (step g op) = level_ups g.
Proof.
  intros HX.
  destruct op as [l|k|zoneId|encounterId random|e random]; cbn [step].
  - repeat split; assumption.
  - repeat split; assumption.
  - destruct (enterZone_effect zoneId g)
      as [(_ & Hp & He)|(zone & _ & _ & Hp & He)];
      rewrite Hp; unfold level_ups; rewrite He.
    + repeat split; assumption.
    + rewrite filter_app, length_app; simpl.
      repeat split; [assumption|lia].
  - rewrite triggerEncounter_player. unfold level_ups.
    rewrite triggerEncounter_emitted, filter_app, length_app.
    destruct (snd (triggerEncounter encounterId random g)); simpl;
      repeat split; solve [assumption|lia].
  - destruct (captureAgent_effect e random g) as [(_ & E)|(_ & Hp & He)].
    + rewrite E. repeat split; assumption.
    + rewrite Hp, gain_player_NaN by (left; exact HX).
      unfold level_ups. rewrite He, filter_app, length_app.
      unfold level_up_if_reached. rewrite HX; simpl.
      destruct (Player.level (player g)); simpl; repeat split; lia.
Qed.

(** X8. Capturing an encounter of the catalog ruins the experience count.
    Such an object has neither [level] nor [xp_reward], so whatever the draw
    the capture goes through (the chance is [NaN]), the agent built has [NaN]
    hit points, and xp becomes [NaN]; from then on no sequence of calls
    changes the level or emits a [level_up] event, and xp stays [NaN]. *)
Theorem catalog_capture_freezes_level :
  forall (zone : Zone.t) (e : Encounter.t) (random : Draw) (g : GameLoop),
    In zone ZONES ->
    In e (Zone.encounters zone) ->
    let g1 := fst (captureAgent e random g) in
    snd (captureAgent e random g) = true
    /\ CapturedAgent.hp (captured_of e) = JS.NaN
    /\ Player.xp (player g1) = JS.NaN
    /\ Player.level (player g1) = Player.level (player g)
    /\ forall ops : list Op,
         Player.xp (player (run_ops ops g1)) = JS.NaN
         /\ Player.level (player (run_ops ops g1)) = Player.level (player g)
         /\ level_ups (run_ops ops g1) = level_ups g1.
Proof.
  intros zone e random g Hz He g1.
  destruct (catalog_encounter zone e Hz He) as (Hlevel & Hreward & _ & _).
  assert (Hok : snd (captureAgent e random g) = true).
  { unfold captureAgent, captureChance. rewrite Hlevel; simpl.
    destruct (Player.level (player g)); reflexivity. }
  assert (Hp : player g1
               = set_xp_level JS.NaN (Player.level (player g))
                   (push_captured e (captured_of e) (player g))).
  { subst g1. destruct (captureAgent_effect e random g) as [(Hno & _)|(_ & Hp & _)].
    - rewrite Hok in Hno; discriminate Hno.
    - rewrite Hp, Hreward, gain_player_NaN by (right; reflexivity).
      reflexivity. }
  split; [exact Hok|].
  split; [unfold captured_of; rewrite Hlevel; reflexivity|].
  split; [rewrite Hp; reflexivity|].
  split; [rewrite Hp; reflexivity|].
  intros ops.
  assert (Hinv : Player.xp (player (run_ops ops g1)) = JS.NaN
                 /\ Player.level (player (run_ops ops g1))
                    = Player.level (player g1)
                 /\ level_ups (run_ops ops g1) = level_ups g1).
  { apply (run_ops_invariant
             (fun g' => Player.xp (player g') = JS.NaN
                        /\ Player.level (player g') = Player.level (player g1)
                        /\ level_ups g' = level_ups g1)).
    - intros g' op (HX & HL & Hn).
      destruct (step_frozen g' op HX) as (HX' & HL' & Hn').
      split; [exact HX'|]. split; congruence.
    - rewrite Hp. repeat split. }
  destruct Hinv as (HX & HL & Hn).
  split; [exact HX|]. split; [|exact Hn].
  rewrite HL, Hp; reflexivity.
Qed.

Lemma catalog_capture_freezes_level_witness :
  let g := constructor "Ada" in
  exists zone : Zone.t,
    In zone ZONES
    /\ In routing_ghost (Zone.encounters zone)
    /\ snd (captureAgent routing_ghost draw_half g) = true
    /\ Player.level
         (player
            (run_ops [OpCaptureAgent (wild "b" 1 5000) draw_zero]
               (fst (captureAgent routing_ghost draw_half g))))
       = JS.Fin 1.
Proof.
  intros g.
  assert (Hz : In (nth 1 ZONES (zone "" "" "" "" "" 0 [] "")) ZONES)
    by (right; left; reflexivity).
  assert (He : In routing_ghost
                 (Zone.encounters (nth 1 ZONES (zone "" "" "" "" "" 0 [] ""))))
    by (left; reflexivity).
  eexists. split; [exact Hz|]. split; [exact He|].
  destruct (catalog_capture_freezes_level _ routing_ghost draw_half g Hz He)
    as (Hok & _ & _ & _ & Hops).
  split; [exact Hok|].
  exact (proj1 (proj2 (Hops [OpCaptureAgent (wild "b" 1 5000) draw_zero]))).
Defined.

(** X9. What the engine never writes: over any sequence of calls the
    player's position, the [running] flag and [tickRate] stay what they
    were, so on a new engine the position is always (0,0,0), [running] is
    always [false] and [tickRate] is always 60. *)
Theorem never_written :
  forall (g : GameLoop) (ops : list Op),
    Player.position (player (run_ops ops g)) = Player.position (player g)
    /\ running (run_ops ops g) = running g
    /\ tickRate (run_ops ops g) = tickRate g.
Proof.
  intros g ops.
  apply (run_ops_invariant
           (fun g' => Player.position (player g') = Player.position (player g)
                      /\ running g' = running g
                      /\ tickRate g' = tickRate g)); [|repeat split].
  clear ops; intros g' op (Hpos & Hrun & Htick).
  destruct (step_engine g' op) as [-> ->].
  split; [|split; assumption].
  destruct (step_player g' op)
    as [E|[(zoneId & zone & _ & E)|(e & X & L & E)]]; rewrite E; exact Hpos.
Qed.

(** ** Triggering an encounter: what the answer tells *)

Lemma eligible_In (zone : Zone.t) (g : GameLoop) (t : Encounter.t) :
  In t (eligibleEncounters zone g)
  <-> In t (Zone.encounters zone)
      /\ ~ In (Encounter.id t) (Player.agents_captured (player g)).
Proof.
  split; [apply eligible_not_captured|].
  intros [Hin Hnot]. unfold eligibleEncounters. apply filter_In.
  split; [exact Hin|]. apply negb_true_iff.
  destruct (JS.includes _ _) eqn:E; [|reflexivity].
  apply includes_In in E. contradiction.
Qed.

(** ** Capturing twice *)

(** X12. Nothing stops a second capture of the same encounter. While the
    pool of the current zone is not empty, [triggerEncounter] called with
    the id of a template already captured returns that template, and
    [captureAgent] never looks at [agents_captured]: a capture of it that
    goes through lists the id a second time, and adds a second agent with
    this id to the party if there is room. *)
Theorem captured_encounter_can_be_captured_again :
  forall (g : GameLoop) (zone : Zone.t) (t first : Encounter.t)
         (rest : list Encounter.t) (d1 d2 : Draw),
    getCurrentZone g = Some zone ->
    find (fun e => Encounter.id e =? Encounter.id t) (Zone.encounters zone)
    = Some t ->
    Encounter.id t <> "" ->
    In (Encounter.id t) (Player.agents_captured (player g)) ->
    eligibleEncounters zone g = first :: rest ->
    let r1 := triggerEncounter (Some (Encounter.id t)) d1 g in
    let r2 := captureAgent t d2 (fst r1) in
    snd r1 = Some t
    /\ (snd r2 = true ->
        Player.agents_captured (player (fst r2))
        = Player.agents_captured (player g) ++ [Encounter.id t]
        /\ Player.party (player (fst r2))
           = (if (length (Player.party (player g)) <? 6)%nat
              then Player.party (player g) ++ [captured_of t]
              else Player.party (player g))).
Proof.
  intros g zone t first rest d1 d2 Hzone Hfind Hid Hcap Hpool r1 r2.
  assert (E1 : r1 = (emit (encounter t) g, Some t)).
  { subst r1. unfold triggerEncounter.
    rewrite Hzone, Hpool, (truthy_nonempty _ Hid), Hfind. reflexivity. }
  split; [rewrite E1; reflexivity|].
  intros Hok. subst r2.
  destruct (captureAgent_effect t d2 (fst r1)) as [(Hno & _)|(_ & Hp & _)];
    [rewrite Hok in Hno; discriminate Hno|].
  rewrite Hp, E1; simpl fst. rewrite emit_player.
  unfold gain_player. destruct (JS.ge _ _); split; reflexivity.
Qed.

Lemma captured_encounter_can_be_captured_again_witness :
  let g := fst (captureAgent routing_ghost draw_zero
                  (fst (enterZone "gateway-nexus" (constructor "Ada")))) in
  let r1 := triggerEncounter (Some "routing-ghost") draw_half g in
  let r2 := captureAgent routing_ghost draw_half (fst r1) in
  In "routing-ghost" (Player.agents_captured (player g))
  /\ snd r1 = Some routing_ghost
  /\ snd r2 = true
  /\ Player.agents_captured (player (fst r2))
     = ["routing-ghost"; "routing-ghost"]
  /\ map CapturedAgent.id (Player.party (player (fst r2)))
     = ["routing-ghost"; "routing-ghost"].
Proof.
  intros g r1 r2.
  assert (Hcap : In (Encounter.id routing_ghost)
                   (Player.agents_captured (player g)))
    by (left; reflexivity).
  assert (Hne : Encounter.id routing_ghost <> "") by discriminate.
  assert (Hok : snd r2 = true) by reflexivity.
  destruct (captured_encounter_can_be_captured_again g _ routing_ghost _ _
              draw_half draw_half eq_refl eq_refl Hne Hcap eq_refl)
    as [H1 H2].
  destruct (H2 Hok) as [Hids Hparty].
  split; [exact Hcap|]. split; [exact H1|]. split; [exact Hok|].
  split; [exact Hids|].
  exact (f_equal (map CapturedAgent.id) Hparty).
Defined.

(** ** A zone once cleared *)

(** X13. A cleared zone stays cleared: once every template of a zone is
    among the captured ids, [triggerEncounter] answers [null] and changes
    nothing whenever that zone is the current one, after any further
    sequence of calls and whatever id and draw it is given. *)
Theorem cleared_zone_stays_cleared :
  forall (g : GameLoop) (zone : Zone.t) (ops : list Op)
         (encounterId : option string) (random : Draw),
    (forall e, In e (Zone.encounters zone) ->
               In (Encounter.id e) (Player.agents_captured (player g))) ->
    getCurrentZone (run_ops ops g) = Some zone ->
    triggerEncounter encounterId random (run_ops ops g)
    = (run_ops ops g, None).
Proof.
  intros g zone ops encounterId random Hall Hzone.
  assert (Hprefix : prefix_of (Player.agents_captured (player g))
                      (Player.agents_captured (player (run_ops ops g)))).
  { apply (run_ops_invariant
             (fun g' => prefix_of (Player.agents_captured (player g))
                          (Player.agents_captured (player g')))).
    - clear ops Hzone; intros g' op [suffix Hs].
      destruct (step_player g' op)
        as [E|[(zoneId & zone' & _ & E)|(e & X & L & E)]]; rewrite E;
        unfold set_current_zone, set_xp_level, push_captured;
        cbn [Player.agents_captured].
      + exists suffix; exact Hs.
      + exists suffix; exact Hs.
      + exists (suffix ++ [Encounter.id e]). rewrite Hs, app_assoc; reflexivity.
    - exists []; rewrite app_nil_r; reflexivity. }
  destruct Hprefix as [suffix Hs].
  unfold triggerEncounter. rewrite Hzone.
  rewrite (eligible_exhausted zone (run_ops ops g)); [reflexivity|].
  intros e He. rewrite Hs. apply in_or_app; left. apply Hall, He.
Qed.

Lemma cleared_zone_stays_cleared_witness :
  let ops := [OpEnterZone "gateway-nexus";
              OpCaptureAgent routing_ghost draw_zero;
              OpEnterZone "recursion-depths"] in
  exists zone : Zone.t,
    Zone.id zone = "recursion-depths"
    /\ getCurrentZone (run_ops ops cleared) = Some zone
    /\ triggerEncounter (Some "paradox-daemon") draw_zero (run_ops ops cleared)
       = (run_ops ops cleared, None).
Proof.
  intros ops.
  assert (Hz : getCurrentZone (run_ops ops cleared)
               = Some (nth 0 ZONES (zone "" "" "" "" "" 0 [] "")))
    by reflexivity.
  assert (Hall : forall e,
            In e (Zone.encounters (nth 0 ZONES (zone "" "" "" "" "" 0 [] ""))) ->
            In (Encounter.id e) (Player.agents_captured (player cleared))).
  { intros e He; simpl in He.
    destruct He as [<-|[<-|[<-|[]]]]; vm_compute; auto. }
  eexists. split; [|split; [exact Hz|]]; [reflexivity|].
  exact (cleared_zone_stays_cleared cleared _ ops (Some "paradox-daemon")
           draw_zero Hall Hz).
Defined.

(** ** Subscribing and unsubscribing *)

Lemma registrations_zero (k : nat) (ls : list EventListener) :
  registrations k ls = 0%nat <-> forall l, In l ls -> (lid l =? k)%nat = false.
Proof.
  unfold registrations; split.
  - intros H l Hl. destruct (lid l =? k)%nat eqn:E; [|reflexivity].
    assert (Hin : In l (filter (fun l => (lid l =? k)%nat) ls))
      by (apply filter_In; split; assumption).
    apply length_zero_iff_nil in H. rewrite H in Hin. destruct Hin.
  - intros H. rewrite filter_none_In; [reflexivity|exact H].
Qed.

(** X14. The unsubscribe function removes every registration of its
    listener, however often the same function was passed to [on], and
    leaves the other listeners registered as they were, in their order;
    calling it again changes nothing; and for a listener that was not
    registered before, [on] followed by its unsubscribe function gives the
    engine back as it was. *)
Theorem unsubscribe_removes_every_registration :
  forall (k : nat) (g : GameLoop),
    registrations k (listeners (unsubscribe k g)) = 0%nat
    /\ (forall j : nat,
          j <> k ->
          filter (fun l => (lid l =? j)%nat) (listeners (unsubscribe k g))
          = filter (fun l => (lid l =? j)%nat) (listeners g))
    /\ unsubscribe k (unsubscribe k g) = unsubscribe k g
    /\ (forall l : EventListener,
          lid l = k ->
          registrations k (listeners g) = 0%nat ->
          unsubscribe k (on l g) = g)
    /\ (forall l : EventListener,
          lid l = k ->
          registrations k (listeners (on l (on l g)))
          = S (S (registrations k (listeners g)))
          /\ registrations k (listeners (unsubscribe k (on l (on l g))))
             = 0%nat).
Proof.
  intros k g.
  assert (Hzero : forall ls : list EventListener,
            registrations k (filter (fun l => negb (lid l =? k)%nat) ls)
            = 0%nat).
  { intros ls. apply registrations_zero. intros l Hl.
    apply filter_In in Hl. destruct Hl as [_ Hl].
    apply negb_true_iff in Hl; exact Hl. }
  split; [apply Hzero|]. split; [|split; [|split]].
  - intros j Hj. unfold unsubscribe; simpl. rewrite filter_twice.
    apply filter_ext; intros l.
    destruct (lid l =? j)%nat eqn:Ej; [|apply andb_false_r].
    apply Nat.eqb_eq in Ej. rewrite andb_true_r.
    apply negb_true_iff, Nat.eqb_neq. congruence.
  - unfold unsubscribe, set_listeners; simpl. f_equal.
    rewrite filter_twice. apply filter_ext; intros l.
    destruct (negb (lid l =? k)%nat); reflexivity.
  - intros l Hl Hnone. unfold unsubscribe, on, set_listeners; simpl.
    rewrite filter_app; simpl. rewrite Hl, Nat.eqb_refl; simpl.
    rewrite app_nil_r, filter_all_In.
    + destruct g; reflexivity.
    + intros a Ha. apply negb_true_iff.
      apply (proj1 (registrations_zero k (listeners g)) Hnone a Ha).
  - intros l Hl. split; [|apply Hzero].
    unfold registrations, on; simpl.
    rewrite !filter_app, !length_app; simpl.
    rewrite Hl, Nat.eqb_refl; simpl. lia.
Qed.

Lemma unsubscribe_removes_every_registration_witness :
  let g := on (observer 1) (constructor "Ada") in
  lid (observer 2) = 2%nat
  /\ registrations 2 (listeners g) = 0%nat
  /\ unsubscribe 2 (on (observer 2) g) = g
  /\ (2 <> 1)%nat
  /\ filter (fun l => (lid l =? 1)%nat)
       (listeners (unsubscribe 2 (on (observer 2) (on (observer 2) g))))
     = filter (fun l => (lid l =? 1)%nat)
         (listeners (on (observer 2) (on (observer 2) g))).
Proof.
  intros g.
  assert (Hl : lid (observer 2) = 2%nat) by reflexivity.
  assert (H0 : registrations 2 (listeners g) = 0%nat) by reflexivity.
  assert (Hne : (1 <> 2)%nat) by discriminate.
  split; [exact Hl|]. split; [exact H0|].
  split; [exact (proj1 (proj2 (proj2 (proj2
                   (unsubscribe_removes_every_registration 2 g))))
                   (observer 2) Hl H0)|].
  split; [discriminate|].
  exact (proj1 (proj2 (unsubscribe_removes_every_registration 2
                         (on (observer 2) (on (observer 2) g)))) 1%nat Hne).
Defined.




(** ** The chance and the levels *)

(** X16. A higher player level never hurts and a higher encounter level
    never helps: with the same draw, a capture that succeeds still succeeds
    for a player of a higher level, and for an encounter of a lower
    level. *)
Theorem capture_chance_monotone :
  forall (g g' : GameLoop) (e e' : Encounter.t) (random : Draw)
         (pl pl' el el' : Q),
    Player.level (player g) = JS.Fin pl ->
    Player.level (player g') = JS.Fin pl' ->
    Encounter.level e = Some (JS.Fin el) ->
    Encounter.level e' = Some (JS.Fin el') ->
    (pl <= pl')%Q ->
    (el' <= el)%Q ->
    snd (captureAgent e random g) = true ->
    snd (captureAgent e' random g') = true.
Proof.
  intros g g' e e' random pl pl' el el' HL HL' He He' Hpl Hel Hok.
  destruct (clamp_finite ((1 # 2) + (pl - el) * (1 # 10)))
    as (c & Hc & Hrange & Hlo & Hhi & Hmid).
  destruct (clamp_finite ((1 # 2) + (pl' - el') * (1 # 10)))
    as (c' & Hc' & Hrange' & Hlo' & Hhi' & Hmid').
  rewrite <- (captureChance_finite e pl el He), <- HL in Hc.
  rewrite <- (captureChance_finite e' pl' el' He'), <- HL' in Hc'.
  apply (captureAgent_succeeds_iff g e random c Hc) in Hok.
  apply (captureAgent_succeeds_iff g' e' random c' Hc').
  assert (Hcc : (c <= c')%Q).
  { destruct (Qlt_le_dec ((1 # 2) + (pl - el) * (1 # 10)) (1 # 10)) as [A|A].
    - assert (Ec : c == 1 # 10) by (apply Hlo; lra). lra.
    - destruct (Qlt_le_dec (19 # 20) ((1 # 2) + (pl' - el') * (1 # 10)))
        as [B|B].
      + assert (Ec' : c' == 19 # 20) by (apply Hhi'; lra). lra.
      + assert (Ec' : c' == (1 # 2) + (pl' - el') * (1 # 10))
          by (apply Hmid'; lra).
        assert (Ec : c == (1 # 2) + (pl - el) * (1 # 10))
          by (apply Hmid; lra).
        lra. }
  lra.
Qed.

Lemma capture_chance_monotone_witness :
  let g := constructor "Ada" in
  let g' := run_ops sample_ops (constructor "Ada") in
  let e := wild "x" 3 10 in
  Player.level (player g) = JS.Fin 1
  /\ Player.level (player g') = JS.Fin (1 + 1)
  /\ (1 <= 1 + 1)%Q
  /\ snd (captureAgent e (mkDraw (3 # 10) eq_refl) g) = true
  /\ snd (captureAgent e (mkDraw (3 # 10) eq_refl) g') = true.
Proof.
  intros g g' e.
  assert (HL : Player.level (player g) = JS.Fin 1) by reflexivity.
  assert (HL' : Player.level (player g') = JS.Fin (1 + 1)) by reflexivity.
  assert (Hle : (1 <= 1 + 1)%Q) by discriminate.
  assert (Hel : (3 <= 3)%Q) by discriminate.
  assert (Hok : snd (captureAgent e (mkDraw (3 # 10) eq_refl) g) = true)
    by reflexivity.
  repeat (split; [assumption|]).
  exact (capture_chance_monotone g g' e e (mkDraw (3 # 10) eq_refl)
           1 (1 + 1) 3 3 HL HL' eq_refl eq_refl Hle Hel Hok).
Defined.

(** ** The party *)

(** X17. Party members are never altered, removed or reordered: after any
    sequence of calls the former party is a prefix of the new one, and
    every member has equal [hp] and [max_hp], 15 times its level, if the
    same held before. *)
Theorem party_only_grows :
  forall (g : GameLoop) (ops : list Op),
    prefix_of (Player.party (player g)) (Player.party (player (run_ops ops g)))
    /\ ((forall a, In a (Player.party (player g)) ->
                   CapturedAgent.hp a
                   = JS.mul (JS.ToNumber (CapturedAgent.level a)) (JS.Fin 15)
                   /\ CapturedAgent.max_hp a = CapturedAgent.hp a) ->
        forall a, In a (Player.party (player (run_ops ops g))) ->
                  CapturedAgent.hp a
                  = JS.mul (JS.ToNumber (CapturedAgent.level a)) (JS.Fin 15)
                  /\ CapturedAgent.max_hp a = CapturedAgent.hp a).
Proof.
  intros g ops. split.
  - apply (run_ops_invariant
             (fun g' => prefix_of (Player.party (player g))
                          (Player.party (player g')))).
    + clear ops; intros g' op [suffix Hs].
      destruct (step_player g' op)
        as [E|[(zoneId & zone & _ & E)|(e & X & L & E)]]; rewrite E;
        unfold set_current_zone, set_xp_level, push_captured;
        cbn [Player.party].
      * exists suffix; exact Hs.
      * exists suffix; exact Hs.
      * destruct (length (Player.party (player g')) <? 6)%nat.
        -- exists (suffix ++ [captured_of e]).
           rewrite Hs, app_assoc; reflexivity.
        -- exists suffix; exact Hs.
    + exists []; rewrite app_nil_r; reflexivity.
  - apply (run_ops_invariant
             (fun g' => forall a, In a (Player.party (player g')) ->
                CapturedAgent.hp a
                = JS.mul (JS.ToNumber (CapturedAgent.level a)) (JS.Fin 15)
                /\ CapturedAgent.max_hp a = CapturedAgent.hp a)).
    clear ops; intros g' op H a.
    destruct (step_player g' op)
      as [E|[(zoneId & zone & _ & E)|(e & X & L & E)]]; rewrite E;
      unfold set_current_zone, set_xp_level, push_captured;
      cbn [Player.party].
    + apply H.
    + apply H.
    + destruct (length (Player.party (player g')) <? 6)%nat; [|apply H].
      intros Ha. apply in_app_or in Ha. destruct Ha as [Ha|[<-|[]]].
      * apply H, Ha.
      * split; reflexivity.
Qed.

Lemma party_only_grows_witness :
  let g := run_ops sample_ops (constructor "Ada") in
  (forall a, In a (Player.party (player (constructor "Ada"))) ->
             CapturedAgent.hp a
             = JS.mul (JS.ToNumber (CapturedAgent.level a)) (JS.Fin 15)
             /\ CapturedAgent.max_hp a = CapturedAgent.hp a)
  /\ map CapturedAgent.hp (Player.party (player g)) = [JS.Fin 30]
  /\ forall a, In a (Player.party (player g)) ->
               CapturedAgent.max_hp a = CapturedAgent.hp a.
Proof.
  intros g.
  assert (H0 : forall a, In a (Player.party (player (constructor "Ada"))) ->
             CapturedAgent.hp a
             = JS.mul (JS.ToNumber (CapturedAgent.level a)) (JS.Fin 15)
             /\ CapturedAgent.max_hp a = CapturedAgent.hp a)
    by (intros a []).
  split; [exact H0|]. split; [reflexivity|].
  intros a Ha.
  exact (proj2 (proj2 (party_only_grows (constructor "Ada") sample_ops) H0 a Ha)).
Defined.

(** ** Callbacks that do not call back *)

Lemma view_filter (k : nat) (ls : list Reentrant.Listener) :
  map view_listener
    (filter (fun l => negb (Reentrant.lid l =? k)%nat) ls)
  = filter (fun l => negb (lid l =? k)%nat) (map view_listener ls).
Proof.
  induction ls as [|l ls IH]; simpl; [reflexivity|].
  destruct (Reentrant.lid l =? k)%nat; simpl; rewrite IH; reflexivity.
Qed.

Lemma view_unsubscribe (k : nat) (E : Reentrant.Engine) :
  view (Reentrant.unsubscribe k E) = unsubscribe k (view E).
Proof.
  unfold view, Reentrant.unsubscribe, unsubscribe, set_listeners; simpl.
  rewrite view_filter; reflexivity.
Qed.

Lemma unsubscribe_incl (k : nat) (E : Reentrant.Engine) :
  incl (Reentrant.listeners (Reentrant.unsubscribe k E)) (Reentrant.listeners E).
Proof. intros l Hl; simpl in Hl. apply filter_In in Hl; apply Hl. Qed.

Lemma all_passive_incl (E E' : Reentrant.Engine) :
  Reentrant.all_passive E ->
  incl (Reentrant.listeners E') (Reentrant.listeners E) ->
  Reentrant.all_passive E'.
Proof. intros H Hincl l event Hl. apply H, Hincl, Hl. Qed.

(** A passive callback runs to its end whatever the call stack allows, and
    does what its unsubscribe calls do. *)
Lemma exec_passive
    (inv : Reentrant.Listener -> GameEvent -> Reentrant.Engine
           -> option Reentrant.Engine)
    (c : Reentrant.Callback) :
  Reentrant.passive c ->
  forall E : Reentrant.Engine,
  exists E' : Reentrant.Engine,
    Reentrant.exec inv c E = Some E'
    /\ view E' = fold_left run (Reentrant.cmds_of c) (view E)
    /\ incl (Reentrant.listeners E') (Reentrant.listeners E).
Proof.
  induction c as [|k next IH| | | | |]; simpl; intros Hp E; try contradiction.
  - exists E. split; [reflexivity|]. split; [reflexivity|apply incl_refl].
  - destruct (IH Hp (Reentrant.unsubscribe k E)) as (E' & Hx & Hv & Hi).
    exists E'. split; [exact Hx|]. split.
    + rewrite Hv, view_unsubscribe; reflexivity.
    + eapply incl_tran; [exact Hi|apply unsubscribe_incl].
Qed.

Lemma invoke_passive (depth : nat) (l : Reentrant.Listener)
    (event : GameEvent) (E : Reentrant.Engine) :
  Reentrant.passive (Reentrant.body l event) ->
  exists E' : Reentrant.Engine,
    Reentrant.invoke (S depth) l event E = Some E'
    /\ view E' = call event (view E) (view_listener l)
    /\ incl (Reentrant.listeners E') (Reentrant.listeners E).
Proof.
  intros Hp. simpl.
  destruct (exec_passive (Reentrant.invoke depth) _ Hp
              (Reentrant.log_delivered (Reentrant.lid l) event E))
    as (E' & Hx & Hv & Hi).
  exists E'. split; [exact Hx|]. split; [exact Hv|exact Hi].
Qed.

Lemma emit_fold_passive (depth : nat) (event : GameEvent)
    (ls : list Reentrant.Listener) :
  (forall l, In l ls -> Reentrant.passive (Reentrant.body l event)) ->
  forall E0 : Reentrant.Engine,
  exists E' : Reentrant.Engine,
    fold_left
      (fun acc l =>
         match acc with
         | Some E1 => Reentrant.invoke (S depth) l event E1
         | None => None
         end) ls (Some E0) = Some E'
    /\ view E' = fold_left (call event) (map view_listener ls) (view E0)
    /\ incl (Reentrant.listeners E') (Reentrant.listeners E0).
Proof.
  induction ls as [|l ls IH]; intros Hp E0.
  - exists E0. split; [reflexivity|]. split; [reflexivity|apply incl_refl].
  - destruct (invoke_passive depth l event E0 (Hp l (or_introl eq_refl)))
      as (E1 & Hx1 & Hv1 & Hi1).
    destruct (IH (fun l' Hl' => Hp l' (or_intror Hl')) E1)
      as (E' & Hx & Hv & Hi).
    exists E'. cbn [fold_left map]. rewrite Hx1. split; [exact Hx|]. split.
    + rewrite Hv, Hv1; reflexivity.
    + eapply incl_tran; [exact Hi|exact Hi1].
Qed.

Lemma emit_passive (depth : nat) (event : GameEvent) (E : Reentrant.Engine) :
  Reentrant.all_passive E ->
  exists E' : Reentrant.Engine,
    Reentrant.emit (Reentrant.invoke (S depth)) event E = Some E'
    /\ view E' = emit event (view E)
    /\ incl (Reentrant.listeners E') (Reentrant.listeners E).
Proof.
  intros Hp. unfold Reentrant.emit, emit.
  destruct (emit_fold_passive depth event (Reentrant.listeners E)
              (fun l Hl => Hp l event Hl) (Reentrant.log_emitted event E))
    as (E' & Hx & Hv & Hi).
  exists E'. split; [exact Hx|]. split; [exact Hv|exact Hi].
Qed.

(** With passive callbacks and one frame of call stack, every operation
    returns, and does what the operation on the [GameLoop] seen does. *)
Lemma enterZone_passive (depth : nat) (zoneId : string) (E : Reentrant.Engine) :
  Reentrant.all_passive E ->
  exists (E' : Reentrant.Engine) (answer : bool),
    Reentrant.enterZone (Reentrant.invoke (S depth)) zoneId E = Some (E', answer)
    /\ enterZone zoneId (view E) = (view E', answer)
    /\ incl (Reentrant.listeners E') (Reentrant.listeners E).
Proof.
  intros Hp. unfold Reentrant.enterZone, enterZone.
  change (player (view E)) with (Reentrant.player E).
  destruct (find _ ZONES) as [zone|].
  2:{ exists E, false. split; [reflexivity|]. split; [reflexivity|apply incl_refl]. }
  destruct (JS.lt _ _).
  { eexists _, false. split; [reflexivity|]. split; [reflexivity|apply incl_refl]. }
  destruct (emit_passive depth (zone_enter zone)
              (Reentrant.set_player
                 (set_current_zone zoneId (Reentrant.player E)) E) Hp)
    as (E' & Hx & Hv & Hi).
  exists E', true. rewrite Hx. split; [reflexivity|]. split; [|exact Hi].
  rewrite Hv; reflexivity.
Qed.

Lemma triggerEncounter_passive (depth : nat) (encounterId : option string)
    (random : Draw) (E : Reentrant.Engine) :
  Reentrant.all_passive E ->
  exists (E' : Reentrant.Engine) (answer : option Encounter.t),
    Reentrant.triggerEncounter (Reentrant.invoke (S depth)) encounterId random E
    = Some (E', answer)
    /\ triggerEncounter encounterId random (view E) = (view E', answer)
    /\ incl (Reentrant.listeners E') (Reentrant.listeners E).
Proof.
  intros Hp. unfold Reentrant.triggerEncounter, triggerEncounter.
  change (getCurrentZone (view E)) with (Reentrant.getCurrentZone E).
  destruct (Reentrant.getCurrentZone E) as [zone|].
  2:{ exists E, None. split; [reflexivity|]. split; [reflexivity|apply incl_refl]. }
  change (eligibleEncounters zone (view E))
    with (Reentrant.eligibleEncounters zone E).
  destruct (Reentrant.eligibleEncounters zone E) as [|first rest].
  { exists E, None. split; [reflexivity|]. split; [reflexivity|apply incl_refl]. }
  cbv zeta.
  match goal with
  | |- context [match ?sel with Some _ => _ | None => _ end] =>
      destruct sel as [t|]
  end.
  2:{ exists E, None. split; [reflexivity|]. split; [reflexivity|apply incl_refl]. }
  destruct (emit_passive depth (encounter t) E Hp) as (E' & Hx & Hv & Hi).
  exists E', (Some t). rewrite Hx. split; [reflexivity|]. split; [|exact Hi].
  rewrite Hv; reflexivity.
Qed.

Lemma gainXP_passive (depth : nat) (amount : JS.num) (E : Reentrant.Engine) :
  Reentrant.all_passive E ->
  exists E' : Reentrant.Engine,
    Reentrant.gainXP (Reentrant.invoke (S depth)) amount E = Some E'
    /\ gainXP amount (view E) = view E'
    /\ incl (Reentrant.listeners E') (Reentrant.listeners E).
Proof.
  intros Hp. unfold Reentrant.gainXP, gainXP.
  change (player (view E)) with (Reentrant.player E).
  destruct (JS.ge _ _).
  - destruct (emit_passive depth
                (level_up (JS.add (Player.level (Reentrant.player E)) (JS.Fin 1)))
                (Reentrant.set_player
                   (set_xp_level
                      (JS.sub (JS.add (Player.xp (Reentrant.player E)) amount)
                         (JS.mul (Player.level (Reentrant.player E)) (JS.Fin 100)))
                      (JS.add (Player.level (Reentrant.player E)) (JS.Fin 1))
                      (Reentrant.player E)) E) Hp)
      as (E' & Hx & Hv & Hi).
    exists E'. split; [exact Hx|]. split; [|exact Hi].
    rewrite Hv; reflexivity.
  - eexists. split; [reflexivity|]. split; [reflexivity|apply incl_refl].
Qed.

Lemma captureAgent_passive (depth : nat) (e : Encounter.t) (random : Draw)
    (E : Reentrant.Engine) :
  Reentrant.all_passive E ->
  exists (E' : Reentrant.Engine) (answer : bool),
    Reentrant.captureAgent (Reentrant.invoke (S depth)) e random E
    = Some (E', answer)
    /\ captureAgent e random (view E) = (view E', answer)
    /\ incl (Reentrant.listeners E') (Reentrant.listeners E).
Proof.
  intros Hp. unfold Reentrant.captureAgent, captureAgent.
  change (player (view E)) with (Reentrant.player E).
  destruct (JS.gt _ _).
  { exists E, false. split; [reflexivity|]. split; [reflexivity|apply incl_refl]. }
  cbv zeta.
  destruct (emit_passive depth (capture (captured_of e))
              (Reentrant.set_player
                 (push_captured e (captured_of e) (Reentrant.player E)) E) Hp)
    as (E2 & Hx2 & Hv2 & Hi2).
  rewrite Hx2.
  destruct (gainXP_passive depth (JS.ToNumber (Encounter.xp_reward e)) E2
              (all_passive_incl _ _ Hp Hi2))
    as (E3 & Hx3 & Hv3 & Hi3).
  rewrite Hx3. exists E3, true. split; [reflexivity|]. split.
  - change (emit (capture (captured_of e))
              (set_player (push_captured e (captured_of e) (Reentrant.player E))
                 (view E)))
      with (emit (capture (captured_of e))
              (view (Reentrant.set_player
                       (push_captured e (captured_of e) (Reentrant.player E)) E))).
    rewrite <- Hv2, Hv3; reflexivity.
  - eapply incl_tran; [exact Hi3|exact Hi2].
Qed.

(** ** The events of a capture *)

(** The three calls on a [GameLoop], each succeeding: the events emitted
    and those delivered to a subscriber that stays. *)
Lemma sequence_events (g : GameLoop) (zoneId : string)
    (encounterId : option string) (d1 d2 : Draw) (e t : Encounter.t) :
  let r1 := enterZone zoneId g in
  let r2 := triggerEncounter encounterId d1 (fst r1) in
  let r3 := captureAgent e d2 (fst r2) in
  snd r1 = true ->
  snd r2 = Some t ->
  snd r3 = true ->
  exists zone : Zone.t,
    getZone zoneId = Some zone
    /\ let events :=
         [zone_enter zone; encounter t; capture (captured_of e)]
         ++ level_up_if_reached (player g) (JS.ToNumber (Encounter.xp_reward e)) in
       emitted (fst r3) = emitted g ++ events
       /\ forall s : nat,
            registrations s (listeners g) = 1%nat ->
            never_unsubscribed s (listeners g) ->
            received s (fst r3) = received s g ++ events.
Proof.
  intros r1 r2 r3 H1 H2 H3.
  destruct (enterZone_true zoneId g H1) as (zone & Hzone & E1).
  pose proof (triggerEncounter_some encounterId d1 (fst r1) t H2) as E2.
  pose proof (captureAgent_true e d2 (fst r2) H3) as E3.
  exists zone. split; [exact Hzone|].
  subst r3; rewrite E3. subst r2; rewrite E2. subst r1; rewrite E1.
  clear H1 H2 H3 E1 E2 E3.
  set (g0 := set_player (set_current_zone zoneId (player g)) g).
  set (g1 := emit (zone_enter zone) g0).
  set (g2 := emit (encounter t) g1).
  set (g3 := set_player (push_captured e (captured_of e) (player g2)) g2).
  set (g4 := emit (capture (captured_of e)) g3).
  set (amount := JS.ToNumber (Encounter.xp_reward e)).
  assert (Hp : level_up_if_reached (player g4) amount
               = level_up_if_reached (player g) amount).
  { unfold g4; rewrite emit_player. unfold g3; simpl.
    unfold g2; rewrite emit_player. unfold g1; rewrite emit_player.
    reflexivity. }
  destruct (gainXP_eq amount g4) as [Hem Hrec].
  rewrite Hp in Hem, Hrec.
  split.
  - rewrite Hem. unfold g4; rewrite emit_emitted. unfold g3; simpl.
    unfold g2; rewrite emit_emitted. unfold g1; rewrite emit_emitted.
    unfold g0; simpl. rewrite <- !app_assoc; reflexivity.
  - intros s Hone Hnever.
    destruct (emit_subscriber s (zone_enter zone) g0 Hone Hnever)
      as (R1 & One1 & Never1).
    destruct (emit_subscriber s (encounter t) g1 One1 Never1)
      as (R2 & One2 & Never2).
    destruct (emit_subscriber s (capture (captured_of e)) g3 One2 Never2)
      as (R3 & One3 & Never3).
    rewrite (Hrec s One3 Never3). fold g4 in R3. rewrite R3.
    change (received s g3) with (received s g2).
    fold g2 in R2. rewrite R2. fold g1 in R1. rewrite R1.
    change (received s g0) with (received s g).
    rewrite <- !app_assoc; reflexivity.
Qed.

(** A draw of at most 0.1 captures any encounter at any level. *)
Lemma guaranteed_capture (e : Encounter.t) (random : Draw) (g : GameLoop) :
  guaranteed random -> snd (captureAgent e random g) = true.
Proof.
  unfold guaranteed; intros Hd. unfold captureAgent.
  destruct (captureChance (Player.level (player g)) e) as [raw|].
  - destruct (clamp_finite raw) as (c & Hc & [Hlo _] & _).
    rewrite Hc; simpl.
    assert (E : JS.Qlt_bool c (dval random) = false)
      by (apply Qlt_bool_false; lra).
    rewrite E; reflexivity.
  - reflexivity.
Qed.

(** C9, as the code has it. Let no listener call back into the engine
    (callbacks observe or unsubscribe). Then entering a zone, triggering an
    encounter there and capturing an encounter object with a draw of at most
    0.1, the first two calls succeeding, makes the capture succeed and emits
    exactly: [zone_enter] with the zone found in the catalog, [encounter]
    with the template selected, [capture] with the agent built from the
    object (its properties copied, [hp] and [max_hp] its level times 15),
    and then one [level_up] with the level raised by one if and only if xp
    plus the reward reaches [level * 100]. A subscriber registered once that
    nobody unsubscribes is delivered exactly these events, in this order.
    Levels, experience and reward are integers of magnitude at most
    [2 ^ 40] or absent, and a draw used to pick in the pool picks exactly:
    there the arithmetic stated is that of the code. *)
Theorem capture_event_sequence :
  forall (depth : nat) (E E1 E2 : Reentrant.Engine) (zoneId : string)
         (encounterId : option string) (d1 d2 : Draw) (e t : Encounter.t)
         (s : nat),
    Reentrant.all_passive E ->
    registrations s (listeners (view E)) = 1%nat ->
    never_unsubscribed s (listeners (view E)) ->
    guaranteed d2 ->
    (truthy encounterId = None ->
     forall n : nat, (n <= 3)%nat -> exact_pick d1 n) ->
    small_int (Player.level (Reentrant.player E)) ->
    small_int (Player.xp (Reentrant.player E)) ->
    small_int (JS.ToNumber (Encounter.xp_reward e)) ->
    small_int (JS.ToNumber (Encounter.level e)) ->
    Reentrant.enterZone (Reentrant.invoke (S depth)) zoneId E
    = Some (E1, true) ->
    Reentrant.triggerEncounter (Reentrant.invoke (S depth)) encounterId d1 E1
    = Some (E2, Some t) ->
    exists (E3 : Reentrant.Engine) (zone : Zone.t),
      Reentrant.captureAgent (Reentrant.invoke (S depth)) e d2 E2
      = Some (E3, true)
      /\ getZone zoneId = Some zone
      /\ let p := Reentrant.player E in
         let reward := JS.ToNumber (Encounter.xp_reward e) in
         let agent :=
           {| CapturedAgent.id := Encounter.id e;
              CapturedAgent.name := Encounter.agent_name e;
              CapturedAgent.type := Encounter.type e;
              CapturedAgent.level := Encounter.level e;
              CapturedAgent.moves := Encounter.moves e;
              CapturedAgent.hp :=
                JS.mul (JS.ToNumber (Encounter.level e)) (JS.Fin 15);
              CapturedAgent.max_hp :=
                JS.mul (JS.ToNumber (Encounter.level e)) (JS.Fin 15) |} in
         let events :=
           [zone_enter zone; encounter t; capture agent]
           ++ (if JS.ge (JS.add (Player.xp p) reward)
                    (JS.mul (Player.level p) (JS.Fin 100))
               then [level_up (JS.add (Player.level p) (JS.Fin 1))]
               else []) in
         Reentrant.emitted E3 = Reentrant.emitted E ++ events
         /\ received s (view E3) = received s (view E) ++ events.
Proof.
  intros depth E E1 E2 zoneId encounterId d1 d2 e t s
         Hp Hone Hnever Hd2 _ _ _ _ _ H1 H2.
  destruct (enterZone_passive depth zoneId E Hp) as (E1' & b1 & X1 & V1 & I1).
  rewrite H1 in X1. injection X1 as <- <-.
  pose proof (all_passive_incl _ _ Hp I1) as Hp1.
  destruct (triggerEncounter_passive depth encounterId d1 E1 Hp1)
    as (E2' & b2 & X2 & V2 & I2).
  rewrite H2 in X2. injection X2 as <- <-.
  pose proof (all_passive_incl _ _ Hp1 I2) as Hp2.
  destruct (captureAgent_passive depth e d2 E2 Hp2)
    as (E3 & b3 & X3 & V3 & I3).
  assert (Hb3 : b3 = true).
  { pose proof (guaranteed_capture e d2 (view E2) Hd2) as Hg.
    rewrite V3 in Hg. exact Hg. }
  subst b3.
  destruct (sequence_events (view E) zoneId encounterId d1 d2 e t)
    as (zone & Hzone & Hem & Hrec).
  - rewrite V1; reflexivity.
  - rewrite V1; simpl fst. rewrite V2; reflexivity.
  - rewrite V1; simpl fst. rewrite V2; simpl fst. rewrite V3; reflexivity.
  - exists E3, zone. split; [exact X3|]. split; [exact Hzone|].
    rewrite V1 in Hem, Hrec; simpl fst in Hem, Hrec.
    rewrite V2 in Hem, Hrec; simpl fst in Hem, Hrec.
    rewrite V3 in Hem, Hrec; simpl fst in Hem, Hrec.
    split; [exact Hem|]. exact (Hrec s Hone Hnever).
Qed.

Lemma small_int_of_Z (z : Z) :
  (Z.abs z <= 2 ^ 40)%Z -> small_int (JS.Fin (inject_Z z)).
Proof. intros H; right; exists z; split; [reflexivity|exact H]. Qed.

Lemma capture_event_sequence_witness :
  let E := Reentrant.on (watcher 7) (Reentrant.constructor "Ada") in
  let run := Reentrant.invoke 1 in
  let e := wild "x" 2 150 in
  exists (E1 E2 E3 : Reentrant.Engine) (zone : Zone.t),
    Reentrant.all_passive E
    /\ registrations 7 (listeners (view E)) = 1%nat
    /\ never_unsubscribed 7 (listeners (view E))
    /\ guaranteed draw_zero
    /\ small_int (Player.level (Reentrant.player E))
    /\ small_int (Player.xp (Reentrant.player E))
    /\ small_int (JS.ToNumber (Encounter.xp_reward e))
    /\ small_int (JS.ToNumber (Encounter.level e))
    /\ Reentrant.enterZone run "gateway-nexus" E = Some (E1, true)
    /\ Reentrant.triggerEncounter run (Some "routing-ghost") draw_half E1
       = Some (E2, Some routing_ghost)
    /\ Reentrant.captureAgent run e draw_zero E2 = Some (E3, true)
    /\ getZone "gateway-nexus" = Some zone
    /\ received 7 (view E3)
       = [zone_enter zone; encounter routing_ghost;
          capture
            {| CapturedAgent.id := "x"; CapturedAgent.name := Some "x";
               CapturedAgent.type := "logic";
               CapturedAgent.level := Some (JS.Fin 2);
               CapturedAgent.moves := Some [];
               CapturedAgent.hp := JS.Fin (2 * 15);
               CapturedAgent.max_hp := JS.Fin (2 * 15) |};
          level_up (JS.Fin (1 + 1))].
Proof.
  intros E run e.
  assert (Hp : Reentrant.all_passive E).
  { intros l event Hl. simpl in Hl. destruct Hl as [<-|[]]. exact I. }
  assert (Hone : registrations 7 (listeners (view E)) = 1%nat) by reflexivity.
  assert (Hnever : never_unsubscribed 7 (listeners (view E))).
  { intros l event Hl Hc. simpl in Hl. destruct Hl as [<-|[]]. exact Hc. }
  assert (Hd : guaranteed draw_zero) by discriminate.
  assert (Hpick : truthy (Some "routing-ghost") = None ->
                  forall n : nat, (n <= 3)%nat -> exact_pick draw_half n)
    by discriminate.
  assert (Hbound : forall z : Z, (Z.abs z <= 150)%Z -> (Z.abs z <= 2 ^ 40)%Z).
  { intros z Hz. eapply Z.le_trans; [exact Hz|discriminate]. }
  assert (HL : small_int (Player.level (Reentrant.player E)))
    by (apply (small_int_of_Z 1), Hbound; discriminate).
  assert (HX : small_int (Player.xp (Reentrant.player E)))
    by (apply (small_int_of_Z 0), Hbound; discriminate).
  assert (HR : small_int (JS.ToNumber (Encounter.xp_reward e)))
    by (apply (small_int_of_Z 150), Hbound; discriminate).
  assert (Hlv : small_int (JS.ToNumber (Encounter.level e)))
    by (apply (small_int_of_Z 2), Hbound; discriminate).
  destruct (enterZone_passive 0 "gateway-nexus" E Hp)
    as (E1 & b1 & H1 & V1 & I1).
  assert (A1 : snd (enterZone "gateway-nexus" (view E)) = true) by reflexivity.
  rewrite V1 in A1; simpl in A1; subst b1.
  destruct (triggerEncounter_passive 0 (Some "routing-ghost") draw_half E1
              (all_passive_incl _ _ Hp I1))
    as (E2 & t & H2 & V2 & _).
  assert (A2 : snd (triggerEncounter (Some "routing-ghost") draw_half
                      (fst (enterZone "gateway-nexus" (view E))))
               = Some routing_ghost) by reflexivity.
  rewrite V1 in A2; simpl fst in A2. rewrite V2 in A2; simpl in A2; subst t.
  destruct (capture_event_sequence 0 E E1 E2 "gateway-nexus"
              (Some "routing-ghost") draw_half draw_zero e routing_ghost 7
              Hp Hone Hnever Hd Hpick HL HX HR Hlv H1 H2)
    as (E3 & zone & H3 & Hzone & _ & Hrec).
  exists E1, E2, E3, zone.
  repeat (split; [first [assumption | reflexivity]|]).
  exact Hrec.
Defined.

(** C9, as stated, fails when a subscriber calls back: a listener that
    triggers an encounter of its own as soon as a zone is entered stays
    subscribed throughout, the three calls succeed, and it is delivered
    four events, [zone_enter], [encounter], [encounter], [capture], which
    is not the sequence [zone_enter], [encounter], [capture] followed by a
    [level_up] or by nothing. *)
Lemma capture_event_sequence_counterexample :
  let E := Reentrant.on (eager 1) (Reentrant.constructor "Ada") in
  let run := Reentrant.invoke 2 in
  exists (E1 E2 E3 : Reentrant.Engine) (zone : Zone.t),
    Reentrant.enterZone run "gateway-nexus" E = Some (E1, true)
    /\ Reentrant.triggerEncounter run (Some "routing-ghost") draw_zero E1
       = Some (E2, Some routing_ghost)
    /\ Reentrant.captureAgent run routing_ghost draw_zero E2 = Some (E3, true)
    /\ map Reentrant.lid (Reentrant.listeners E3) = [1%nat]
    /\ received 1 (view E3)
       = [zone_enter zone; encounter routing_ghost; encounter routing_ghost;
          capture (captured_of routing_ghost)]
    /\ ~ (exists (z : Zone.t) (t : Encounter.t) (a : CapturedAgent.t)
                 (rest : list GameEvent),
            received 1 (view E3)
            = zone_enter z :: encounter t :: capture a :: rest).
Proof.
  intros E run.
  do 4 eexists.
  split; [vm_compute; reflexivity|].
  split; [vm_compute; reflexivity|].
  split; [vm_compute; reflexivity|].
  split; [reflexivity|].
  split; [vm_compute; reflexivity|].
  intros (z & t & a & rest & H). vm_compute in H. discriminate H.
Qed.

(** ** Callbacks that call back: what still holds *)

Lemma fold_stuck {A : Type} (f : Reentrant.Engine -> A -> option Reentrant.Engine)
    (ls : list A) :
  fold_left
    (fun acc a => match acc with Some E => f E a | None => None end) ls None
  = None.
Proof. induction ls as [|a ls IH]; simpl; [reflexivity|exact IH]. Qed.

Section Extends.

Variable inv :
  Reentrant.Listener -> GameEvent -> Reentrant.Engine -> option Reentrant.Engine.

(** Whatever a callback invocation does, it keeps the events emitted
    before. *)
Hypothesis inv_extends :
  forall l event E E',
    inv l event E = Some E' ->
    prefix_of (Reentrant.emitted E) (Reentrant.emitted E').

Lemma emit_extends (event : GameEvent) (E E' : Reentrant.Engine) :
  Reentrant.emit inv event E = Some E' ->
  exists later : list GameEvent,
    Reentrant.emitted E' = Reentrant.emitted E ++ event :: later.
Proof.
  unfold Reentrant.emit.
  assert (Hfold : forall ls E0,
            fold_left
              (fun acc l =>
                 match acc with
                 | Some E1 => inv l event E1
                 | None => None
                 end) ls (Some E0) = Some E' ->
            prefix_of (Reentrant.emitted E0) (Reentrant.emitted E')).
  { induction ls as [|l ls IH]; intros E0 H; simpl in H.
    - injection H as <-. exists []; rewrite app_nil_r; reflexivity.
    - destruct (inv l event E0) as [E1|] eqn:H1.
      + destruct (inv_extends _ _ _ _ H1) as [m1 Hm1].
        destruct (IH E1 H) as [m2 Hm2].
        exists (m1 ++ m2). rewrite Hm2, Hm1, app_assoc; reflexivity.
      + rewrite (fold_stuck (fun E1 l => inv l event E1)) in H.
        discriminate H. }
  intros H. destruct (Hfold _ _ H) as [later Hl].
  exists later. rewrite Hl; simpl. rewrite <- app_assoc; reflexivity.
Qed.

Lemma enterZone_extends (zoneId : string) (E E' : Reentrant.Engine)
    (answer : bool) :
  Reentrant.enterZone inv zoneId E = Some (E', answer) ->
  prefix_of (Reentrant.emitted E) (Reentrant.emitted E').
Proof.
  unfold Reentrant.enterZone.
  destruct (find _ ZONES) as [zone|].
  2:{ intros H; injection H as <- _. exists []; rewrite app_nil_r; reflexivity. }
  destruct (JS.lt _ _).
  { intros H; injection H as <- _. exists []; rewrite app_nil_r; reflexivity. }
  destruct (Reentrant.emit inv _ _) as [E1|] eqn:H1; [|discriminate].
  intros H; injection H as <- _.
  destruct (emit_extends _ _ _ H1) as [later Hl].
  exists (zone_enter zone :: later). exact Hl.
Qed.

Lemma triggerEncounter_extends (encounterId : option string) (random : Draw)
    (E E' : Reentrant.Engine) (answer : option Encounter.t) :
  Reentrant.triggerEncounter inv encounterId random E = Some (E', answer) ->
  prefix_of (Reentrant.emitted E) (Reentrant.emitted E').
Proof.
  unfold Reentrant.triggerEncounter.
  destruct (Reentrant.getCurrentZone E) as [zone|].
  2:{ intros H; injection H as <- _. exists []; rewrite app_nil_r; reflexivity. }
  destruct (Reentrant.eligibleEncounters zone E) as [|first rest].
  { intros H; injection H as <- _. exists []; rewrite app_nil_r; reflexivity. }
  cbv zeta.
  match goal with
  | |- context [match ?sel with Some _ => _ | None => _ end] =>
      destruct sel as [t|]
  end.
  2:{ intros H; injection H as <- _. exists []; rewrite app_nil_r; reflexivity. }
  destruct (Reentrant.emit inv _ _) as [E1|] eqn:H1; [|discriminate].
  intros H; injection H as <- _.
  destruct (emit_extends _ _ _ H1) as [later Hl].
  exists (encounter t :: later). exact Hl.
Qed.

Lemma gainXP_extends (amount : JS.num) (E E' : Reentrant.Engine) :
  Reentrant.gainXP inv amount E = Some E' ->
  prefix_of (Reentrant.emitted E) (Reentrant.emitted E').
Proof.
  unfold Reentrant.gainXP. destruct (JS.ge _ _).
  - intros H. destruct (emit_extends _ _ _ H) as [later Hl].
    eexists. exact Hl.
  - intros H; injection H as <-. exists []; rewrite app_nil_r; reflexivity.
Qed.

Lemma captureAgent_extends (e : Encounter.t) (random : Draw)
    (E E' : Reentrant.Engine) (answer : bool) :
  Reentrant.captureAgent inv e random E = Some (E', answer) ->
  prefix_of (Reentrant.emitted E) (Reentrant.emitted E').
Proof.
  unfold Reentrant.captureAgent. destruct (JS.gt _ _).
  { intros H; injection H as <- _. exists []; rewrite app_nil_r; reflexivity. }
  cbv zeta.
  destruct (Reentrant.emit inv _ _) as [E2|] eqn:H2; [|discriminate].
  destruct (Reentrant.gainXP inv _ E2) as [E3|] eqn:H3; [|discriminate].
  intros H; injection H as <- _.
  destruct (emit_extends _ _ _ H2) as [m2 Hm2].
  destruct (gainXP_extends _ _ _ H3) as [m3 Hm3].
  eexists. rewrite Hm3, Hm2; simpl. rewrite <- app_assoc. reflexivity.
Qed.

Lemma exec_extends (c : Reentrant.Callback) :
  forall E E' : Reentrant.Engine,
    Reentrant.exec inv c E = Some E' ->
    prefix_of (Reentrant.emitted E) (Reentrant.emitted E').
Proof.
  induction c as [|k next IH|k b _ next IH|zoneId next IH
                  |encounterId random next IH|e random next IH|next IH];
    simpl; intros E E' H.
  - injection H as <-. exists []; rewrite app_nil_r; reflexivity.
  - exact (IH _ _ H).
  - exact (IH _ _ H).
  - destruct (Reentrant.enterZone inv zoneId E) as [[E1 a]|] eqn:H1;
      [|discriminate].
    destruct (enterZone_extends _ _ _ _ H1) as [m1 Hm1].
    destruct (IH _ _ H) as [m2 Hm2].
    exists (m1 ++ m2). rewrite Hm2, Hm1, app_assoc; reflexivity.
  - destruct (Reentrant.triggerEncounter inv encounterId random E)
      as [[E1 a]|] eqn:H1; [|discriminate].
    destruct (triggerEncounter_extends _ _ _ _ _ H1) as [m1 Hm1].
    destruct (IH _ _ H) as [m2 Hm2].
    exists (m1 ++ m2). rewrite Hm2, Hm1, app_assoc; reflexivity.
  - destruct (Reentrant.captureAgent inv e random E) as [[E1 a]|] eqn:H1;
      [|discriminate].
    destruct (captureAgent_extends _ _ _ _ _ H1) as [m1 Hm1].
    destruct (IH _ _ H) as [m2 Hm2].
    exists (m1 ++ m2). rewrite Hm2, Hm1, app_assoc; reflexivity.
  - exact (IH _ _ _ H).
Qed.

End Extends.

Lemma invoke_extends (depth : nat) :
  forall l event E E',
    Reentrant.invoke depth l event E = Some E' ->
    prefix_of (Reentrant.emitted E) (Reentrant.emitted E').
Proof.
  induction depth as [|d IH]; intros l event E E' H; simpl in H;
    [discriminate H|].
  exact (exec_extends (Reentrant.invoke d) IH _ _ _ H).
Qed.

(** X3. What the answer of [enterZone] tells, whatever the listeners do.
    An id the catalog does not have is answered [false]; on [false] the
    player, the listeners and the events are as before. On [true] the id is
    that of a zone of the catalog and a [zone_enter] event carrying that
    zone is the first event the call emitted. If moreover no listener calls
    back into the engine, the call returns, and on [true] this event is the
    only one, the zone is the current zone and nothing else of the player
    changed. *)
Theorem enterZone_contract :
  forall (depth : nat) (zoneId : string) (E : Reentrant.Engine),
    let answer_of := Reentrant.enterZone (Reentrant.invoke depth) zoneId E in
    (getZone zoneId = None -> answer_of = Some (E, false))
    /\ (forall E', answer_of = Some (E', false) ->
          Reentrant.player E' = Reentrant.player E
          /\ Reentrant.listeners E' = Reentrant.listeners E
          /\ Reentrant.emitted E' = Reentrant.emitted E
          /\ Reentrant.delivered E' = Reentrant.delivered E)
    /\ (forall E', answer_of = Some (E', true) ->
          exists (zone : Zone.t) (later : list GameEvent),
            getZone zoneId = Some zone
            /\ Zone.id zone = zoneId
            /\ Reentrant.emitted E'
               = Reentrant.emitted E ++ zone_enter zone :: later)
    /\ (Reentrant.all_passive E -> (0 < depth)%nat ->
        exists (E' : Reentrant.Engine) (answer : bool),
          answer_of = Some (E', answer)
          /\ (answer = true ->
              exists zone : Zone.t,
                getZone zoneId = Some zone
                /\ Reentrant.getCurrentZone E' = Some zone
                /\ Reentrant.player E'
                   = set_current_zone zoneId (Reentrant.player E)
                /\ Reentrant.emitted E'
                   = Reentrant.emitted E ++ [zone_enter zone])).
Proof.
  intros depth zoneId E answer_of; subst answer_of.
  split; [|split; [|split]].
  - unfold getZone, Reentrant.enterZone. intros ->; reflexivity.
  - intros E'. unfold Reentrant.enterZone.
    destruct (find _ ZONES) as [zone|].
    2:{ intros H; injection H as <-. repeat split. }
    destruct (JS.lt _ _).
    { intros H; injection H as <-. repeat split. }
    destruct (Reentrant.emit _ _ _); intros H; discriminate H.
  - intros E'. unfold Reentrant.enterZone, getZone.
    destruct (find (fun z => Zone.id z =? zoneId) ZONES) as [zone|] eqn:Hfind;
      [|discriminate].
    destruct (JS.lt _ _); [discriminate|].
    destruct (Reentrant.emit _ _ _) as [E1|] eqn:H1; [|discriminate].
    intros H; injection H as <-.
    destruct (emit_extends _ (invoke_extends depth) _ _ _ H1) as [later Hl].
    exists zone, later. split; [reflexivity|]. split; [|exact Hl].
    destruct (find_some _ _ Hfind) as [_ Heq].
    apply String.eqb_eq in Heq; exact Heq.
  - intros Hp Hdepth. destruct depth as [|d]; [lia|].
    destruct (enterZone_passive d zoneId E Hp) as (E' & answer & Hx & Hv & _).
    exists E', answer. split; [exact Hx|]. intros ->.
    destruct (enterZone_effect zoneId (view E))
      as [(Hno & _)|(zone & Hzone & _ & Hplayer & Hem)].
    + rewrite Hv in Hno; discriminate Hno.
    + rewrite Hv in Hplayer, Hem; simpl in Hplayer, Hem.
      exists zone. split; [exact Hzone|].
      split; [|split; [exact Hplayer|exact Hem]].
      unfold Reentrant.getCurrentZone. rewrite Hplayer; simpl. exact Hzone.
Qed.

Lemma enterZone_contract_witness :
  let quiet := Reentrant.on (watcher 3) (Reentrant.constructor "Ada") in
  let restless := Reentrant.on (homesick 3) (Reentrant.constructor "Ada") in
  getZone "the-void" = None
  /\ Reentrant.enterZone (Reentrant.invoke 2) "the-void" restless
     = Some (restless, false)
  /\ Reentrant.all_passive quiet
  /\ (exists (E' : Reentrant.Engine) (zone : Zone.t),
        Reentrant.enterZone (Reentrant.invoke 2) "gateway-nexus" quiet
        = Some (E', true)
        /\ Zone.id zone = "gateway-nexus"
        /\ Reentrant.getCurrentZone E' = Some zone
        /\ Reentrant.emitted E' = [zone_enter zone])
  /\ (exists (E' : Reentrant.Engine) (zone : Zone.t) (later : list GameEvent),
        Reentrant.enterZone (Reentrant.invoke 2) "gateway-nexus" restless
        = Some (E', true)
        /\ Zone.id zone = "gateway-nexus"
        /\ Reentrant.emitted E' = zone_enter zone :: later
        /\ Player.current_zone (Reentrant.player E') = "recursion-depths"
        /\ length later = 1%nat).
Proof.
  intros quiet restless.
  assert (Hvoid : getZone "the-void" = None) by reflexivity.
  assert (Hp : Reentrant.all_passive quiet).
  { intros l event Hl. simpl in Hl. destruct Hl as [<-|[]]. exact I. }
  assert (Hd : (0 < 2)%nat) by lia.
  split; [exact Hvoid|].
  split; [exact (proj1 (enterZone_contract 2 "the-void" restless) Hvoid)|].
  split; [exact Hp|]. split.
  - destruct (proj2 (proj2 (proj2 (enterZone_contract 2 "gateway-nexus" quiet)))
                Hp Hd) as (E' & answer & Hx & Htrue).
    assert (Ha : answer = true).
    { assert (A : option_map snd
                    (Reentrant.enterZone (Reentrant.invoke 2) "gateway-nexus"
                       quiet) = Some true) by reflexivity.
      rewrite Hx in A. injection A as A. exact A. }
    subst answer.
    destruct (Htrue eq_refl) as (zone & Hzone & Hcur & _ & Hem).
    exists E', zone. split; [exact Hx|].
    split; [|split; [exact Hcur|exact Hem]].
    unfold getZone in Hzone. destruct (find_some _ _ Hzone) as [_ Heq].
    apply String.eqb_eq in Heq; exact Heq.
  - destruct (Reentrant.enterZone (Reentrant.invoke 2) "gateway-nexus" restless)
      as [[E' answer]|] eqn:Hx; [|vm_compute in Hx; discriminate Hx].
    assert (Ha : answer = true).
    { assert (A : option_map snd
                    (Reentrant.enterZone (Reentrant.invoke 2) "gateway-nexus"
                       restless) = Some true) by reflexivity.
      rewrite Hx in A. injection A as A. exact A. }
    subst answer.
    destruct (proj1 (proj2 (proj2 (enterZone_contract 2 "gateway-nexus" restless)))
                E' Hx) as (zone & later & _ & Hid & Hem).
    assert (Hcur : option_map (fun r => Player.current_zone (Reentrant.player (fst r)))
                     (Reentrant.enterZone (Reentrant.invoke 2) "gateway-nexus"
                        restless) = Some "recursion-depths") by reflexivity.
    rewrite Hx in Hcur. injection Hcur as Hcur.
    assert (Hlen : option_map (fun r => length (Reentrant.emitted (fst r)))
                     (Reentrant.enterZone (Reentrant.invoke 2) "gateway-nexus"
                        restless) = Some 2%nat) by reflexivity.
    rewrite Hx in Hlen. injection Hlen as Hlen. simpl fst in Hlen, Hcur.
    exists E', zone, later.
    split; [reflexivity|]. split; [exact Hid|]. split; [exact Hem|].
    split; [exact Hcur|].
    rewrite Hem in Hlen. simpl in Hlen. lia.
Defined.

(** With a non-empty pool the selection of [triggerEncounter] always yields
    a template of the zone, an uncaptured one when no id is given. *)
Lemma selected_template (g : GameLoop) (zone : Zone.t) (first : Encounter.t)
    (rest : list Encounter.t) (encounterId : option string) (random : Draw) :
  eligibleEncounters zone g = first :: rest ->
  exists t : Encounter.t,
    match truthy encounterId with
    | Some i =>
        match find (fun e => Encounter.id e =? i) (Zone.encounters zone) with
        | Some e => Some e
        | None => Some first
        end
    | None =>
        nth_error (first :: rest)
          (JS.floor_index
             (dval random * inject_Z (Z.of_nat (length (first :: rest)))))
    end = Some t
    /\ In t (Zone.encounters zone)
    /\ (truthy encounterId = None ->
        ~ In (Encounter.id t) (Player.agents_captured (player g))).
Proof.
  intros Hpool.
  assert (Hfirst : In first (eligibleEncounters zone g))
    by (rewrite Hpool; left; reflexivity).
  destruct (truthy encounterId) as [i|].
  - destruct (find (fun e => Encounter.id e =? i) (Zone.encounters zone))
      as [e|] eqn:Hfind.
    + exists e. split; [reflexivity|].
      split; [apply (find_some _ _ Hfind)|discriminate].
    + exists first. split; [reflexivity|].
      split; [apply (eligible_In zone g first), Hfirst|discriminate].
  - assert (Hn : (0 < length (first :: rest))%nat) by (simpl; lia).
    pose proof (random_index_lt random _ Hn) as Hlt.
    destruct (nth_error (first :: rest)
                (JS.floor_index
                   (dval random
                    * inject_Z (Z.of_nat (length (first :: rest))))))
      as [t|] eqn:Hnth.
    + exists t. split; [reflexivity|].
      apply nth_error_In in Hnth. rewrite <- Hpool in Hnth.
      apply eligible_In in Hnth. destruct Hnth as [Hin Hnot].
      split; [exact Hin|intros _; exact Hnot].
    + apply nth_error_None in Hnth. lia.
Qed.

(** X10. What the answer of [triggerEncounter] tells, whatever the
    listeners do. It is [null] exactly when the current zone has no
    eligible encounter (or does not resolve), and then the engine is as
    before. Otherwise it is a template of the zone that was current at the
    call, one not captured at the call when no id (or the empty string) was
    given, and an [encounter] event carrying it is the first event the call
    emitted. If moreover no listener calls back into the engine, the call
    returns, the player is unchanged and that event is the only one. *)
Theorem triggerEncounter_contract :
  forall (depth : nat) (encounterId : option string) (random : Draw)
         (E : Reentrant.Engine),
    let answer_of :=
      Reentrant.triggerEncounter (Reentrant.invoke depth) encounterId random E in
    ((forall zone, Reentrant.getCurrentZone E = Some zone ->
                   Reentrant.eligibleEncounters zone E = []) ->
     answer_of = Some (E, None))
    /\ (forall E', answer_of = Some (E', None) ->
          E' = E
          /\ forall zone, Reentrant.getCurrentZone E = Some zone ->
                          Reentrant.eligibleEncounters zone E = [])
    /\ (forall E' t, answer_of = Some (E', Some t) ->
          exists (zone : Zone.t) (later : list GameEvent),
            Reentrant.getCurrentZone E = Some zone
            /\ In t (Zone.encounters zone)
            /\ (truthy encounterId = None ->
                ~ In (Encounter.id t)
                    (Player.agents_captured (Reentrant.player E)))
            /\ Reentrant.emitted E'
               = Reentrant.emitted E ++ encounter t :: later)
    /\ (Reentrant.all_passive E -> (0 < depth)%nat ->
        exists (E' : Reentrant.Engine) (answer : option Encounter.t),
          answer_of = Some (E', answer)
          /\ Reentrant.player E' = Reentrant.player E
          /\ Reentrant.emitted E' = Reentrant.emitted E ++ encounter_if answer).
Proof.
  intros depth encounterId random E answer_of; subst answer_of.
  assert (Hshape :
    (Reentrant.triggerEncounter (Reentrant.invoke depth) encounterId random E
     = Some (E, None)
     /\ forall zone, Reentrant.getCurrentZone E = Some zone ->
                     Reentrant.eligibleEncounters zone E = [])
    \/ exists (zone : Zone.t) (first t : Encounter.t) (rest : list Encounter.t),
         Reentrant.getCurrentZone E = Some zone
         /\ Reentrant.eligibleEncounters zone E = first :: rest
         /\ In t (Zone.encounters zone)
         /\ (truthy encounterId = None ->
             ~ In (Encounter.id t)
                 (Player.agents_captured (Reentrant.player E)))
         /\ Reentrant.triggerEncounter (Reentrant.invoke depth) encounterId
              random E
            = match Reentrant.emit (Reentrant.invoke depth) (encounter t) E with
              | Some E' => Some (E', Some t)
              | None => None
              end).
  { unfold Reentrant.triggerEncounter.
    destruct (Reentrant.getCurrentZone E) as [zone|] eqn:Hzone.
    2:{ left. split; [reflexivity|]. intros z Hz; discriminate Hz. }
    destruct (Reentrant.eligibleEncounters zone E) as [|first rest] eqn:Hpool.
    { left. split; [reflexivity|]. intros z Hz; injection Hz as <-. exact Hpool. }
    right. cbv zeta.
    destruct (selected_template (view E) zone first rest encounterId random Hpool)
      as (t & Hsel & Hin & Hfresh).
    rewrite Hsel. exists zone, first, t, rest. repeat split; assumption. }
  split; [|split; [|split]].
  - intros Hempty.
    destruct Hshape as [[H _]|(zone & first & t & rest & Hzone & Hpool & _)];
      [exact H|].
    rewrite (Hempty zone Hzone) in Hpool; discriminate Hpool.
  - intros E' H.
    destruct Hshape as [[H0 Hempty]|(zone & first & t & rest & _ & _ & _ & _ & Heq)].
    + rewrite H0 in H. injection H as <-. split; [reflexivity|exact Hempty].
    + rewrite Heq in H.
      destruct (Reentrant.emit _ _ _); discriminate H.
  - intros E' t H.
    destruct Hshape
      as [[H0 _]|(zone & first & t' & rest & Hzone & _ & Hin & Hfresh & Heq)].
    + rewrite H0 in H; discriminate H.
    + rewrite Heq in H.
      destruct (Reentrant.emit (Reentrant.invoke depth) (encounter t') E)
        as [E1|] eqn:H1; [|discriminate H].
      injection H as <- <-.
      destruct (emit_extends _ (invoke_extends depth) _ _ _ H1) as [later Hl].
      exists zone, later. repeat split; assumption.
  - intros Hp Hdepth. destruct depth as [|d]; [lia|].
    destruct (triggerEncounter_passive d encounterId random E Hp)
      as (E' & answer & Hx & Hv & _).
    exists E', answer. split; [exact Hx|].
    pose proof (triggerEncounter_player encounterId random (view E)) as Hplayer.
    pose proof (triggerEncounter_emitted encounterId random (view E)) as Hem.
    rewrite Hv in Hplayer, Hem; simpl in Hplayer, Hem.
    split; [exact Hplayer|exact Hem].
Qed.

Lemma triggerEncounter_contract_witness :
  let quiet := Reentrant.on (watcher 3) (Reentrant.constructor "Ada") in
  Reentrant.all_passive quiet
  /\ (0 < 1)%nat
  /\ exists (E' : Reentrant.Engine) (answer : option Encounter.t),
       Reentrant.triggerEncounter (Reentrant.invoke 1) None draw_half quiet
       = Some (E', answer)
       /\ option_map Encounter.id answer = Some "stack-spirit"
       /\ Reentrant.player E' = Reentrant.player quiet
       /\ Reentrant.emitted E' = encounter_if answer.
Proof.
  intros quiet.
  assert (Hp : Reentrant.all_passive quiet).
  { intros l event Hl. simpl in Hl. destruct Hl as [<-|[]]. exact I. }
  assert (Hd : (0 < 1)%nat) by lia.
  split; [exact Hp|]. split; [exact Hd|].
  destruct (proj2 (proj2 (proj2 (triggerEncounter_contract 1 None draw_half quiet)))
              Hp Hd) as (E' & answer & Hx & Hplayer & Hem).
  exists E', answer. split; [exact Hx|].
  split; [|split; [exact Hplayer|exact Hem]].
  assert (A : option_map (fun r => option_map Encounter.id (snd r))
                (Reentrant.triggerEncounter (Reentrant.invoke 1) None draw_half
                   quiet) = Some (Some "stack-spirit")) by reflexivity.
  rewrite Hx in A. injection A as A. exact A.
Defined.

(** ** Draws that exist *)

(** For every index of a pool of at most [2 ^ 26] entries there is a draw, a
    multiple of [2 ^ -26], that picks it, and picks it exactly: the draw and
    its product with the pool size are binary64 values. *)
Lemma draw_for_index_exact (k n : nat) :
  (k < n)%nat ->
  (Z.of_nat n <= 2 ^ 26)%Z ->
  exists random : Draw,
    exact_pick random n
    /\ (exists m : Z, dval random = (m # 67108864)%Q)
    /\ JS.floor_index (dval random * inject_Z (Z.of_nat n)) = k.
Proof.
  intros Hk Hn.
  set (K := Z.of_nat k). set (N := Z.of_nat n).
  assert (HK : (0 <= K < N)%Z) by (unfold K, N; lia).
  change (2 ^ 26)%Z with 67108864%Z in Hn. fold N in Hn.
  set (a := (K * 67108864 + N - 1)%Z).
  set (m := (a / N)%Z).
  assert (Hdiv : (a = N * m + a mod N)%Z) by (apply Z.div_mod; lia).
  assert (Hmod : (0 <= a mod N < N)%Z) by (apply Z.mod_pos_bound; lia).
  assert (Hlow : (K * 67108864 <= m * N)%Z) by (unfold a in *; lia).
  assert (Hup : (m * N < (K + 1) * 67108864)%Z) by (unfold a in *; lia).
  assert (Hm0 : (0 <= m)%Z) by (unfold m; apply Z.div_pos; unfold a; lia).
  assert (HmP : (m < 67108864)%Z) by nia.
  assert (HmN : (m * N < 67108864 * 67108864)%Z) by nia.
  set (q := (m # 67108864)%Q).
  assert (H0 : (0 <= q)%Q) by (unfold Qle, q; simpl; lia).
  assert (H1 : (q < 1)%Q) by (unfold Qlt, q; simpl; lia).
  assert (Hrange : (Qle_bool 0 q && negb (Qle_bool 1 q))%bool = true).
  { apply andb_true_iff; split; [apply Qle_bool_iff; exact H0|].
    apply negb_true_iff, Qle_bool_false; exact H1. }
  exists (mkDraw q Hrange). cbn [dval].
  assert (Hprod : q * inject_Z N == (m * N # 67108864)%Q).
  { unfold Qeq, q; simpl. lia. }
  split; [split|split].
  - exists m, (-26)%Z. split; [unfold Qeq, q; simpl; lia|].
    split; [|split; discriminate].
    rewrite Z.abs_eq by exact Hm0.
    eapply Z.lt_trans; [exact HmP|reflexivity].
  - exists (m * N)%Z, (-26)%Z. fold N. split; [|split; [|split; discriminate]].
    + rewrite Hprod. unfold Qeq; simpl. lia.
    + rewrite Z.abs_eq by nia.
      eapply Z.lt_trans; [exact HmN|reflexivity].
  - exists m; reflexivity.
  - unfold JS.floor_index. fold N. rewrite Hprod.
    unfold Qfloor.
    assert (Hfloor : (m * N / 67108864 = K)%Z).
    { symmetry. apply (Z.div_unique (m * N) 67108864 K (m * N - K * 67108864));
        lia. }
    rewrite Hfloor. unfold K. apply Nat2Z.id.
Qed.

(** The pools of the catalog have at most three entries. *)
Lemma catalog_pool_small (zone : Zone.t) (E : Reentrant.Engine) :
  Reentrant.getCurrentZone E = Some zone ->
  (length (Reentrant.eligibleEncounters zone E) <= 3)%nat.
Proof.
  intros Hzone. unfold Reentrant.getCurrentZone in Hzone.
  destruct (find_some _ _ Hzone) as [Hin _].
  unfold Reentrant.eligibleEncounters.
  eapply Nat.le_trans; [apply filter_length_le|].
  repeat (destruct Hin as [Hin|Hin]; [subst zone; simpl; lia|]).
  destruct Hin.
Qed.

(** X11. No eligible encounter is out of reach of the draw: for every
    encounter still eligible in the current zone there is a value
    [Math.random()] may return, a multiple of [2 ^ -26] in the interval from
    0 to 1 whose product with the pool size is computed without rounding,
    for which [triggerEncounter()], called without an id, answers this
    encounter whenever it returns, whatever the listeners do; and it does
    return if no listener calls back into the engine. *)
Theorem triggerEncounter_reaches_all :
  forall (E : Reentrant.Engine) (zone : Zone.t) (t : Encounter.t),
    Reentrant.getCurrentZone E = Some zone ->
    In t (Reentrant.eligibleEncounters zone E) ->
    exists random : Draw,
      exact_pick random (length (Reentrant.eligibleEncounters zone E))
      /\ (exists m : Z, dval random = (m # 67108864)%Q)
      /\ (forall depth E' answer,
            Reentrant.triggerEncounter (Reentrant.invoke depth) None random E
            = Some (E', answer) ->
            answer = Some t)
      /\ (Reentrant.all_passive E ->
          forall depth : nat,
          exists E' : Reentrant.Engine,
            Reentrant.triggerEncounter (Reentrant.invoke (S depth)) None random E
            = Some (E', Some t)).
Proof.
  intros E zone t Hzone Hin.
  destruct (In_nth_error _ _ Hin) as [k Hk].
  assert (Hlt : (k < length (Reentrant.eligibleEncounters zone E))%nat)
    by (apply nth_error_Some; rewrite Hk; discriminate).
  assert (Hsmall : (Z.of_nat (length (Reentrant.eligibleEncounters zone E))
                    <= 2 ^ 26)%Z).
  { pose proof (catalog_pool_small zone E Hzone) as H3.
    eapply Z.le_trans; [apply (inj_le _ _ H3)|discriminate]. }
  destruct (draw_for_index_exact k _ Hlt Hsmall)
    as (random & Hexact & Hgrid & Hrandom).
  exists random. split; [exact Hexact|]. split; [exact Hgrid|].
  assert (Hcall : forall depth,
            Reentrant.triggerEncounter (Reentrant.invoke depth) None random E
            = match Reentrant.emit (Reentrant.invoke depth) (encounter t) E with
              | Some E' => Some (E', Some t)
              | None => None
              end).
  { intros depth. unfold Reentrant.triggerEncounter. rewrite Hzone.
    destruct (Reentrant.eligibleEncounters zone E) as [|first rest] eqn:Hpool;
      [destruct Hin|].
    cbv zeta. simpl truthy. cbv iota. rewrite Hrandom, Hk. reflexivity. }
  split.
  - intros depth E' answer H. rewrite Hcall in H.
    destruct (Reentrant.emit _ _ _); [|discriminate H].
    injection H as _ <-. reflexivity.
  - intros Hp depth. rewrite Hcall.
    destruct (emit_passive depth (encounter t) E Hp) as (E' & Hx & _).
    exists E'. rewrite Hx. reflexivity.
Qed.

Lemma triggerEncounter_reaches_all_witness :
  let E := Reentrant.on (watcher 3) (Reentrant.constructor "Ada") in
  exists (zone : Zone.t) (t : Encounter.t) (random : Draw)
         (E' : Reentrant.Engine),
    Reentrant.getCurrentZone E = Some zone
    /\ In t (Reentrant.eligibleEncounters zone E)
    /\ Encounter.id t = "lucidia-sentinel"
    /\ Reentrant.all_passive E
    /\ exact_pick random 3
    /\ Reentrant.triggerEncounter (Reentrant.invoke 1) None random E
       = Some (E', Some t).
Proof.
  intros E.
  assert (Hz : Reentrant.getCurrentZone E
               = Some (nth 0 ZONES (zone "" "" "" "" "" 0 [] "")))
    by reflexivity.
  assert (Hin : In (enc "lucidia-sentinel" "Lucidia Sentinel" "logic" legendary
                      "Guards the deepest truths. Only the wise pass.")
                  (Reentrant.eligibleEncounters
                     (nth 0 ZONES (zone "" "" "" "" "" 0 [] "")) E))
    by (right; right; left; reflexivity).
  assert (Hp : Reentrant.all_passive E).
  { intros l event Hl. simpl in Hl. destruct Hl as [<-|[]]. exact I. }
  destruct (triggerEncounter_reaches_all E _ _ Hz Hin)
    as (random & Hexact & _ & _ & Hret).
  destruct (Hret Hp 0%nat) as [E' Hx].
  do 2 eexists. exists random, E'.
  split; [exact Hz|]. split; [exact Hin|]. split; [reflexivity|].
  split; [exact Hp|]. split; [exact Hexact|exact Hx].
Defined.
